(** * TelegramBot/main.py: the polling bridge between Telegram and a
      Databricks serving endpoint, as a shallow embedding.

    The poller is sequential code that talks to three collaborators (the
    shared [httpx.AsyncClient], the Databricks SDK, [asyncio.sleep]) and
    keeps one mutable field, [last_update_id].  It is embedded in a small
    monad of its own: the poller object and a call counter are threaded as
    state, every log record and every outbound call is written to a trace,
    and a Python exception is an outcome that keeps the state and the trace
    reached so far.  The collaborators are a [World]: total functions that
    say, for the n-th outbound call and its arguments, what the call returns
    or raises. *)

From Stdlib Require Import String Ascii ZArith List Bool Lia DecimalString.
Import ListNotations.
Local Open Scope string_scope.
Local Open Scope list_scope.
Local Open Scope Z_scope.

(** ** Python values the code manipulates *)

(** [str] is modelled by [string], read as the UTF-8 encoding of the text.
    [startswith] and concatenation agree with Python on that reading; the
    slices [s[:n]], which the code only uses inside log records, count
    bytes here and characters in Python. *)
Definition nl : string := String (ascii_of_nat 10) EmptyString.

Definition py_str_int (z : Z) : string := NilZero.string_of_int (Z.to_int z).

Definition py_str_opt (o : option string) : string :=
  match o with Some s => s | None => "None" end.

Definition py_slice_to (n : nat) (s : string) : string := substring 0 n s.

Definition startswith (s pre : string) : bool := String.prefix pre s.

Fixpoint py_repeat (s : string) (n : nat) : string :=
  match n with
  | O => ""
  | S k => s ++ py_repeat s k
  end.

(** The exception classes the handlers of this file tell apart:
    [except httpx.HTTPError], [except Exception], [except KeyboardInterrupt]
    and the bare [except:].  [OtherBaseException] stands for the classes
    that derive from [BaseException] only, such as [asyncio.CancelledError]
    and [SystemExit]. *)
Inductive exn_class : Type :=
| HTTPError
| OtherException
| KeyboardInterrupt
| OtherBaseException.

Record exn : Type := mkExn { exn_cls : exn_class; exn_str : string }.

Definition is_Exception (e : exn) : bool :=
  match exn_cls e with
  | HTTPError | OtherException => true
  | KeyboardInterrupt | OtherBaseException => false
  end.

Definition is_HTTPError (e : exn) : bool :=
  match exn_cls e with HTTPError => true | _ => false end.

Definition is_KeyboardInterrupt (e : exn) : bool :=
  match exn_cls e with KeyboardInterrupt => true | _ => false end.

Inductive outcome (A : Type) : Type :=
| Returns (a : A)
| Raises (e : exn).
Arguments Returns {A} a.
Arguments Raises {A} e.

(** ** Telegram and serving-endpoint data

    A field the code reads by subscript ([update["update_id"]],
    [message["chat"]["id"]]) is a field of the record; a field the code
    tests for or reads with [.get] is an [option]. *)
Record User : Type := mkUser { first_name : option string }.

Record Message : Type := mkMessage {
  chat_id : Z;
  text : option string;
  from_user : option User
}.

Record Update : Type := mkUpdate {
  update_id : Z;
  message : option Message
}.

(** The JSON body of a Bot API answer: the two keys the code reads, and
    the text Python prints for the whole dictionary in a log record. *)
Record TgData : Type := mkTgData {
  ok : bool;
  result : option (list Update);
  data_repr : string
}.

(** An [httpx.Response]: what [raise_for_status()] raises (the text of the
    [HTTPStatusError], [None] for a success status) and what [json()]
    returns or raises. *)
Record Response : Type := mkResponse {
  status_error : option string;
  json : outcome TgData
}.

Record ChatMessage : Type := mkChatMessage { content : option string }.
Record Choice : Type := mkChoice { choice_message : option ChatMessage }.
Record QueryResponse : Type := mkQueryResponse { choices : option (list Choice) }.

Record GetParams : Type := mkGetParams {
  offset : Z;
  timeout : Z;
  allowed_updates : list string
}.

Inductive Payload : Type :=
| SendMessage (chat : Z) (body : string) (parse_mode : string)
| ChatAction (chat : Z) (action : string).

(** ** Observable behaviour *)

Inductive level : Type := INFO | WARNING | ERROR.

Inductive event : Type :=
| Log (lvl : level) (msg : string)
| ClientGet (url : string) (params : option GetParams)
| ClientPost (url : string) (payload : Payload)
| ServingQuery (name : option string) (user_content : string)
| AsyncSleep (secs : Z)
| ClientClose.

Definition trace : Type := list event.

(** The collaborators.  The first argument of each function is the number
    of outbound calls made before this one. *)
Record World : Type := mkWorld {
  client_get : nat -> string -> option GetParams -> outcome Response;
  client_post : nat -> string -> Payload -> outcome Response;
  serving_query : nat -> option string -> string -> outcome QueryResponse;
  asyncio_sleep : nat -> Z -> outcome unit;
  client_aclose : nat -> outcome unit
}.

(** Module-level settings read from the environment. *)
Record Config : Type := mkConfig {
  TELEGRAM_BOT_TOKEN : option string;
  DATABRICKS_SERVING_ENDPOINT : option string;
  POLL_INTERVAL : Z
}.

(** ** The poller object and the monad *)

Record TelegramPoller : Type := mkPoller { last_update_id : Z }.

Record Sys : Type := mkSys { self : TelegramPoller; calls : nat }.

Definition M (A : Type) : Type := Sys -> outcome A * Sys * trace.

Definition ret {A} (a : A) : M A := fun s => (Returns a, s, []).

Definition raise {A} (e : exn) : M A := fun s => (Raises e, s, []).

Definition bind {A B} (m : M A) (k : A -> M B) : M B := fun s =>
  match m s with
  | (Returns a, s1, t1) =>
      match k a s1 with
      | (r, s2, t2) => (r, s2, t1 ++ t2)
      end
  | (Raises e, s1, t1) => (Raises e, s1, t1)
  end.

Declare Scope poller_scope.
Delimit Scope poller_scope with poller.
Notation "x <- m ;; k" := (bind m (fun x => k))
  (at level 100, m at next level, right associativity) : poller_scope.
Notation "m ;; k" := (bind m (fun _ => k))
  (at level 100, right associativity) : poller_scope.
Local Open Scope poller_scope.

(** [try: m except ...: h].  [h e] is [None] when no clause matches [e];
    the state and the trace reached when [e] was raised are kept. *)
Definition try_except {A} (m : M A) (h : exn -> option (M A)) : M A := fun s =>
  match m s with
  | (Returns a, s1, t1) => (Returns a, s1, t1)
  | (Raises e, s1, t1) =>
      match h e with
      | None => (Raises e, s1, t1)
      | Some k =>
          match k s1 with
          | (r, s2, t2) => (r, s2, t1 ++ t2)
          end
      end
  end.

Definition except_when {A} (p : exn -> bool) (k : exn -> M A) : exn -> option (M A) :=
  fun e => if p e then Some (k e) else None.

Definition except_Exception {A} (k : exn -> M A) := except_when is_Exception k.
Definition except_HTTPError {A} (k : exn -> M A) := except_when is_HTTPError k.
Definition except_any {A} (k : exn -> M A) := except_when (fun _ => true) k.

Definition get_last_update_id : M Z := fun s => (Returns (last_update_id (self s)), s, []).

Definition set_last_update_id (n : Z) : M unit := fun s =>
  (Returns tt, mkSys (mkPoller n) (calls s), []).

Definition logger (lvl : level) (msg : string) : M unit := fun s =>
  (Returns tt, s, [Log lvl msg]).

(** An outbound call: recorded, counted, answered by the world. *)
Definition outbound {A} (ev : event) (answer : nat -> outcome A) : M A := fun s =>
  (answer (calls s), mkSys (self s) (S (calls s)), [ev]).

Definition of_outcome {A} (o : outcome A) : M A :=
  match o with Returns a => ret a | Raises e => raise e end.

Definition run_state {A} (m : M A) (s : Sys) : Sys := snd (fst (m s)).
Definition run_trace {A} (m : M A) (s : Sys) : trace := snd (m s).
Definition run_outcome {A} (m : M A) (s : Sys) : outcome A := fst (fst (m s)).

(** ** The methods of [TelegramPoller] *)

Section Poller.

Variable W : World.
Variable cfg : Config.

(** [TELEGRAM_API_URL], an f-string over the token. *)
Definition TELEGRAM_API_URL : string :=
  "https://api.telegram.org/bot" ++ py_str_opt (TELEGRAM_BOT_TOKEN cfg).

(** [__init__]: the cursor starts at 0; the shared client is created here. *)
Definition init : Sys := mkSys (mkPoller 0) O.

Definition no_choice_reply : string :=
  "I couldn't generate a response. Please try again.".

Definition endpoint_error_reply (e : exn) : string :=
  "Sorry, I encountered an error: " ++ exn_str e.

(** [response.choices[0].message.content], then [result[:100]] for the log
    record: a missing [message] is an [AttributeError], a [None] content
    makes the slice a [TypeError]. *)
Definition first_choice_content (c : Choice) : outcome string :=
  match choice_message c with
  | None => Raises (mkExn OtherException "'NoneType' object has no attribute 'content'")
  | Some m =>
      match content m with
      | None => Raises (mkExn OtherException "'NoneType' object is not subscriptable")
      | Some r => Returns r
      end
  end.

Definition send_to_databricks_endpoint (message : string) : M string :=
  try_except
    (logger INFO ("Sending to Databricks endpoint: " ++ py_slice_to 100 message) ;;
     response <- outbound (ServingQuery (DATABRICKS_SERVING_ENDPOINT cfg) message)
                   (fun n => serving_query W n (DATABRICKS_SERVING_ENDPOINT cfg) message) ;;
     match choices response with
     | Some (c :: _) =>
         result <- of_outcome (first_choice_content c) ;;
         logger INFO ("Received response: " ++ py_slice_to 100 result) ;;
         ret result
     | Some [] | None => ret no_choice_reply
     end)
    (except_Exception (fun e =>
       logger ERROR ("Error querying Databricks endpoint: " ++ exn_str e) ;;
       ret (endpoint_error_reply e))).

(** [response.raise_for_status()] *)
Definition raise_for_status (r : Response) : M unit :=
  match status_error r with
  | Some msg => raise (mkExn HTTPError msg)
  | None => ret tt
  end.

(** What [send_telegram_message] returns: the decoded body, or the
    dictionary [{"ok": False, "error": str(e)}]. *)
Inductive SendResult : Type :=
| ApiJson (d : TgData)
| SendFailed (error : string).

Definition send_telegram_message (chat : Z) (body : string) : M SendResult :=
  let url := (TELEGRAM_API_URL ++ "/sendMessage")%string in
  let payload := SendMessage chat body "Markdown" in
  try_except
    (response <- outbound (ClientPost url payload) (fun n => client_post W n url payload) ;;
     raise_for_status response ;;
     d <- of_outcome (json response) ;;
     ret (ApiJson d))
    (except_HTTPError (fun e =>
       logger ERROR ("Error sending message to Telegram: " ++ exn_str e) ;;
       ret (SendFailed (exn_str e)))).

Definition send_chat_action (chat : Z) (action : string) : M unit :=
  let url := (TELEGRAM_API_URL ++ "/sendChatAction")%string in
  try_except
    (outbound (ClientPost url (ChatAction chat action))
       (fun n => client_post W n url (ChatAction chat action)) ;;
     ret tt)
    (except_Exception (fun e =>
       logger WARNING ("Failed to send chat action: " ++ exn_str e))).

(** [max(update["update_id"] for update in updates)] on a non-empty list. *)
Definition max_update_id (u : Update) (rest : list Update) : Z :=
  fold_left Z.max (map update_id rest) (update_id u).

Definition get_updates : M (list Update) :=
  let url := (TELEGRAM_API_URL ++ "/getUpdates")%string in
  cursor <- get_last_update_id ;;
  let params := mkGetParams (cursor + 1) 30 ["message"] in
  try_except
    (response <- outbound (ClientGet url (Some params))
                   (fun n => client_get W n url (Some params)) ;;
     raise_for_status response ;;
     data <- of_outcome (json response) ;;
     if ok data then
       let updates := match result data with Some l => l | None => [] end in
       match updates with
       | u :: rest => set_last_update_id (max_update_id u rest)
       | [] => ret tt
       end ;;
       ret updates
     else
       logger ERROR ("Error getting updates: " ++ data_repr data) ;;
       ret [])
    (except_Exception (fun e =>
       logger ERROR ("Error polling Telegram: " ++ exn_str e) ;;
       ret [])).

Definition start_reply : string :=
  "👋 Hello! I'm connected to a Databricks AI model. Send me a message and I'll respond!".

Definition help_reply : string :=
  "💬 Just send me any message and I'll process it through the Databricks AI model."
  ++ nl ++ nl ++
  "Commands:" ++ nl ++
  "/start - Welcome message" ++ nl ++
  "/help - This help message" ++ nl ++
  "/status - Check bot status".

Definition status_reply (cursor : Z) : string :=
  "✅ Bot is running" ++ nl ++
  "🔗 Endpoint: " ++ py_str_opt (DATABRICKS_SERVING_ENDPOINT cfg) ++ nl ++
  "🔄 Mode: Polling" ++ nl ++
  "📊 Last update ID: " ++ py_str_int cursor.

Definition processing_error_reply : string :=
  "Sorry, I encountered an error processing your message. Please try again.".

(** [message.get("from", {}).get("first_name", "User")] *)
Definition user_name_of (m : Message) : string :=
  match from_user m with
  | Some u => match first_name u with Some n => n | None => "User" end
  | None => "User"
  end.

(** The [try] block of [process_update]; each [return] of the source ends
    a branch. *)
Definition handle_update (update : Update) : M unit :=
  match message update with
  | None => ret tt
  | Some message =>
      match text message with
      | None => logger INFO "Message doesn't contain text, skipping"
      | Some user_message =>
          let chat := chat_id message in
          let user_name := user_name_of message in
          logger INFO ("Processing message from " ++ user_name ++ " (chat "
                       ++ py_str_int chat ++ "): " ++ user_message) ;;
          if startswith user_message "/start" then
            send_telegram_message chat start_reply ;; ret tt
          else if startswith user_message "/help" then
            send_telegram_message chat help_reply ;; ret tt
          else if startswith user_message "/status" then
            cursor <- get_last_update_id ;;
            send_telegram_message chat (status_reply cursor) ;; ret tt
          else
            send_chat_action chat "typing" ;;
            bot_response <- send_to_databricks_endpoint user_message ;;
            send_telegram_message chat bot_response ;;
            logger INFO ("Successfully processed message for chat " ++ py_str_int chat)
      end
  end.

(** The [except Exception as e] block of [process_update].  It reads the
    local [message], which is unbound when the update has no message; the
    inner bare [except] swallows whatever the notice raises. *)
Definition on_update_error (update : Update) (e : exn) : M unit :=
  logger ERROR ("Error processing update: " ++ exn_str e) ;;
  try_except
    (match message update with
     | Some message =>
         send_telegram_message (chat_id message) processing_error_reply ;; ret tt
     | None => raise (mkExn OtherException
                        "local variable 'message' referenced before assignment")
     end)
    (except_any (fun _ => ret tt)).

Definition process_update (update : Update) : M unit :=
  try_except (handle_update update) (except_Exception (on_update_error update)).

(** The [for update in updates] loop of [run]. *)
Fixpoint process_updates (updates : list Update) : M unit :=
  match updates with
  | [] => ret tt
  | update :: rest => process_update update ;; process_updates rest
  end.

Inductive loop_ctl : Type := Continue | Break.

(** The [if updates:] block of [run]. *)
Definition dispatch_batch (updates : list Update) : M unit :=
  match updates with
  | [] => ret tt
  | _ :: _ =>
      logger INFO ("Received " ++ py_str_int (Z.of_nat (length updates)) ++ " new updates") ;;
      process_updates updates
  end.

(** The [try] block inside [while True]. *)
Definition poll_once : M loop_ctl :=
  updates <- get_updates ;;
  dispatch_batch updates ;;
  outbound (AsyncSleep (POLL_INTERVAL cfg)) (fun n => asyncio_sleep W n (POLL_INTERVAL cfg)) ;;
  ret Continue.

(** The two [except] clauses of the loop, in source order. *)
Definition on_loop_error (e : exn) : option (M loop_ctl) :=
  if is_KeyboardInterrupt e then
    Some (logger INFO "Stopping poller..." ;; ret Break)
  else if is_Exception e then
    Some (logger ERROR ("Error in main loop: " ++ exn_str e) ;;
          outbound (AsyncSleep 5) (fun n => asyncio_sleep W n 5) ;;
          ret Continue)
  else None.

(** One turn of [while True].  An exception that neither clause matches,
    or one raised inside a clause, leaves the loop as an exception. *)
Definition run_iteration : M loop_ctl := try_except poll_once on_loop_error.

(** [while True]: [None] when the turns allowed by [fuel] are used up and
    the loop is still running, [Some tt] when it was left by [break]. *)
Fixpoint run_loop (fuel : nat) : M (option unit) :=
  match fuel with
  | O => ret None
  | S n =>
      c <- run_iteration ;;
      match c with
      | Break => ret (Some tt)
      | Continue => run_loop n
      end
  end.

Definition banner : string := py_repeat "=" 60.

Definition run (fuel : nat) : M (option unit) :=
  logger INFO banner ;;
  logger INFO "Telegram Bot Poller Started" ;;
  logger INFO banner ;;
  token <- match TELEGRAM_BOT_TOKEN cfg with
           | Some t => ret t
           | None => raise (mkExn OtherException "'NoneType' object is not subscriptable")
           end ;;
  logger INFO ("Bot Token: " ++ py_slice_to 10 token ++ "...") ;;
  logger INFO ("Endpoint: " ++ py_str_opt (DATABRICKS_SERVING_ENDPOINT cfg)) ;;
  logger INFO ("Poll Interval: " ++ py_str_int (POLL_INTERVAL cfg) ++ "s") ;;
  logger INFO banner ;;
  try_except
    (outbound (ClientGet (TELEGRAM_API_URL ++ "/deleteWebhook") None)
       (fun n => client_get W n (TELEGRAM_API_URL ++ "/deleteWebhook") None) ;;
     logger INFO "Webhook deleted (if any)")
    (except_any (fun _ => ret tt)) ;;
  stopped <- run_loop fuel ;;
  match stopped with
  | None => ret None
  | Some _ =>
      outbound ClientClose (client_aclose W) ;;
      logger INFO "Poller stopped" ;;
      ret (Some tt)
  end.

(** [main]: build the poller, then [run]. *)
Definition main (fuel : nat) : outcome (option unit) * Sys * trace := run fuel init.

End Poller.

(** ** Observations on states, traces and worlds *)

Definition cursor (s : Sys) : Z := last_update_id (self s).

(** The state after one more outbound call. *)
Definition bump (s : Sys) : Sys := mkSys (self s) (S (calls s)).

Definition is_log (ev : event) : bool :=
  match ev with Log _ _ => true | _ => false end.

(** The outbound calls of a trace, log records dropped. *)
Definition outbound_calls (t : trace) : trace :=
  filter (fun ev => negb (is_log ev)) t.

Definition not_query (ev : event) : Prop :=
  match ev with ServingQuery _ _ => False | _ => True end.


(** A reply, when there is one, goes to the conversation of [u]. *)
Definition answers (u : Update) (ev : event) : Prop :=
  match ev with
  | ClientPost _ (SendMessage c _ _) =>
      exists m, message u = Some m /\ c = chat_id m
  | _ => True
  end.

(** [m] is the largest [update_id] of the batch [B]. *)
Definition is_max_id (m : Z) (B : list Update) : Prop :=
  In m (map update_id B) /\ Forall (fun u => update_id u <= m) B.

Definition is_command (txt : string) : bool :=
  startswith txt "/start" || startswith txt "/help" || startswith txt "/status".

(** [m] never changes [last_update_id]. *)
Definition keeps_cursor {A} (m : M A) : Prop :=
  forall s, cursor (run_state m s) = cursor s.

(** Every event [m] writes to the trace satisfies [P]. *)
Definition emits {A} (P : event -> Prop) (m : M A) : Prop :=
  forall s, Forall P (run_trace m s).

(** Whatever a network call raises is an error, that is, an instance of
    [Exception]: no interrupt or cancellation is delivered inside it. *)
Definition raises_only_errors (W : World) : Prop :=
  (forall n url p e, client_get W n url p = Raises e -> is_Exception e = true) /\
  (forall n url p e, client_post W n url p = Raises e -> is_Exception e = true) /\
  (forall n url p r e, client_post W n url p = Returns r -> json r = Raises e ->
                       is_Exception e = true) /\
  (forall n url p r e, client_get W n url p = Returns r -> json r = Raises e ->
                       is_Exception e = true) /\
  (forall n name msg e, serving_query W n name msg = Raises e -> is_Exception e = true).

Definition sleep_returns (W : World) : Prop :=
  forall n secs, asyncio_sleep W n secs = Returns tt.

(** No batch the transport hands out has its largest [update_id] below the
    cursor it was requested from (the request carries [offset = cursor + 1]). *)
Definition batches_reach_cursor (W : World) : Prop :=
  forall n url p r d u rest,
    client_get W n url (Some p) = Returns r ->
    json r = Returns d ->
    result d = Some (u :: rest) ->
    offset p - 1 <= max_update_id u rest.

(** The two Bot API methods the claims speak about, and the requests the
    poller builds for them. *)
Definition send_url (cfg : Config) : string := TELEGRAM_API_URL cfg ++ "/sendMessage".
Definition updates_url (cfg : Config) : string := TELEGRAM_API_URL cfg ++ "/getUpdates".

Definition reply_to (cfg : Config) (chat : Z) (body : string) : event :=
  ClientPost (send_url cfg) (SendMessage chat body "Markdown").

Definition fetch_after (cfg : Config) (c : Z) : event :=
  ClientGet (updates_url cfg) (Some (mkGetParams (c + 1) 30 ["message"])).

(** What the world answers to the [sendMessage] request issued in [s]. *)
Definition post_answer (W : World) (cfg : Config) (s : Sys) (chat : Z) (body : string)
  : outcome Response :=
  client_post W (calls s) (send_url cfg) (SendMessage chat body "Markdown").

(** The exception a delivery lets through, if any: one that is not an
    [httpx.HTTPError], raised by the request or by decoding its body. *)
Definition delivery_raises (W : World) (cfg : Config) (s : Sys) (chat : Z) (body : string)
  (e : exn) : Prop :=
  is_HTTPError e = false /\
  (post_answer W cfg s chat body = Raises e \/
   exists r, post_answer W cfg s chat body = Returns r /\ status_error r = None /\
             json r = Raises e).

(** The reply the [if] chain of [process_update] picks for a command, the
    prefixes tested in source order. *)
Definition command_reply (cfg : Config) (c : Z) (txt : string) : string :=
  if startswith txt "/start" then start_reply
  else if startswith txt "/help" then help_reply
  else status_reply cfg c.

(** The notice the [except] block of [process_update] tries to send. *)
Definition error_notice (cfg : Config) (u : Update) : trace :=
  match message u with
  | Some m => [reply_to cfg (chat_id m) processing_error_reply]
  | None => []
  end.


(** What the world answers to the [getUpdates] request issued in [s]. *)
Definition get_answer (W : World) (cfg : Config) (s : Sys) : outcome Response :=
  client_get W (calls s) (updates_url cfg)
    (Some (mkGetParams (cursor s + 1) 30 ["message"])).

(** The fetch issued in [s] fails with [e]: the request raises it, the
    status check raises it, or decoding the body raises it. *)
Definition fetch_error (W : World) (cfg : Config) (s : Sys) (e : exn) : Prop :=
  get_answer W cfg s = Raises e \/
  (exists r msg, get_answer W cfg s = Returns r /\ status_error r = Some msg /\
                 e = mkExn HTTPError msg) \/
  (exists r, get_answer W cfg s = Returns r /\ status_error r = None /\
             json r = Raises e).

(** The fetch issued in [s] succeeds and carries the batch [B]. *)
Definition fetch_delivers (W : World) (cfg : Config) (s : Sys) (B : list Update) : Prop :=
  exists r d, get_answer W cfg s = Returns r /\ status_error r = None /\
              json r = Returns d /\ ok d = true /\ result d = Some B.

(** Whatever [m] raises satisfies [Q]. *)
Definition raises_within {A} (Q : exn -> Prop) (m : M A) : Prop :=
  forall s e, run_outcome m s = Raises e -> Q e.

Definition never_raises {A} (m : M A) : Prop := raises_within (fun _ => False) m.

(** The traces of the events of a batch, one per event handled, in the
    order [process_updates] handles them; the list stops after an event
    whose handling raised. *)
Fixpoint segments (W : World) (cfg : Config) (B : list Update) (s : Sys) : list trace :=
  match B with
  | [] => []
  | u :: rest =>
      match process_update W cfg u s with
      | (Returns _, s1, t) => t :: segments W cfg rest s1
      | (Raises _, _, t) => [t]
      end
  end.

(** [m] never lowers [last_update_id]. *)
Definition cursor_grows {A} (m : M A) : Prop :=
  forall s, cursor s <= cursor (run_state m s).

(** What the world answers to the endpoint query issued in [s]. *)
Definition query_answer (W : World) (cfg : Config) (s : Sys) (msg : string)
  : outcome QueryResponse :=
  serving_query W (calls s) (DATABRICKS_SERVING_ENDPOINT cfg) msg.

(** ** Concrete settings, events and worlds *)

Definition demo_cfg : Config :=
  mkConfig (Some "123456:TEST-TOKEN") (Some "chat-endpoint") 2.

Definition text_update (id chat : Z) (txt : string) : Update :=
  mkUpdate id (Some (mkMessage chat (Some txt) None)).

(** A Bot API answer with a success status and [{"ok": true, "result": B}]. *)
Definition batch_response (B : list Update) : Response :=
  mkResponse None (Returns (mkTgData true (Some B) "{'ok': True}")).

Definition one_choice (reply : string) : QueryResponse :=
  mkQueryResponse (Some [mkChoice (Some (mkChatMessage (Some reply)))]).

(** A transport stub that answers every fetch with the same batch, and an
    endpoint stub that answers every prompt with the same text. *)
Definition stub_world (B : list Update) (reply : string) : World :=
  mkWorld
    (fun _ _ params => match params with
                       | Some _ => Returns (batch_response B)
                       | None => Returns (batch_response [])
                       end)
    (fun _ _ _ => Returns (batch_response []))
    (fun _ _ _ => Returns (one_choice reply))
    (fun _ _ => Returns tt)
    (fun _ => Returns tt).


(** Deliveries come back with a body that is not JSON: [json()] raises a
    [ValueError], which is not an [httpx.HTTPError]. *)
Definition garbled_delivery_world (B : list Update) : World :=
  mkWorld
    (fun _ _ params => match params with
                       | Some _ => Returns (batch_response B)
                       | None => Returns (batch_response [])
                       end)
    (fun _ _ _ => Returns (mkResponse None
                             (Raises (mkExn OtherException "Expecting value"))))
    (fun _ _ _ => Returns (one_choice "hi there"))
    (fun _ _ => Returns tt)
    (fun _ => Returns tt).

(** Telegram cannot be reached: every request raises [httpx.ConnectError],
    an [httpx.HTTPError]. *)
Definition offline_world : World :=
  mkWorld
    (fun _ _ _ => Raises (mkExn HTTPError "All connection attempts failed"))
    (fun _ _ _ => Raises (mkExn HTTPError "All connection attempts failed"))
    (fun _ _ _ => Returns (one_choice "hi there"))
    (fun _ _ => Returns tt)
    (fun _ => Returns tt).

(** The pause between polls raises an error; the 5-second pause works. *)
Definition restless_world : World :=
  mkWorld
    (fun _ _ _ => Returns (batch_response []))
    (fun _ _ _ => Returns (batch_response []))
    (fun _ _ _ => Returns (one_choice "hi there"))
    (fun _ secs => if secs =? 5 then Returns tt
                   else Raises (mkExn OtherException "sleep failed"))
    (fun _ => Returns tt).

(** A transport that answers the first fetch (offset 1) with event 101 and
    every later fetch with event 50. *)
Definition rewinding_world : World :=
  mkWorld
    (fun _ _ params => match params with
                       | Some p => if offset p =? 1
                                   then Returns (batch_response [text_update 101 7 "hello"])
                                   else Returns (batch_response [text_update 50 7 "again"])
                       | None => Returns (batch_response [])
                       end)
    (fun _ _ _ => Returns (batch_response []))
    (fun _ _ _ => Returns (one_choice "hi there"))
    (fun _ _ => Returns tt)
    (fun _ => Returns tt).

(** A transport that honours the offset: each fetch brings the one event
    whose id is the requested offset. *)
Definition honest_world : World :=
  mkWorld
    (fun _ _ params => match params with
                       | Some p => Returns (batch_response [text_update (offset p) 7 "/status"])
                       | None => Returns (batch_response [])
                       end)
    (fun _ _ _ => Returns (batch_response []))
    (fun _ _ _ => Returns (one_choice "hi there"))
    (fun _ _ => Returns tt)
    (fun _ => Returns tt).

(** The task running [run] is cancelled while it waits in the long poll:
    the pending [getUpdates] raises [asyncio.CancelledError]. *)
Definition cancelling_world : World :=
  mkWorld
    (fun _ _ params => match params with
                       | Some _ => Raises (mkExn OtherBaseException "CancelledError")
                       | None => Returns (batch_response [])
                       end)
    (fun _ _ _ => Returns (batch_response []))
    (fun _ _ _ => Returns (one_choice "hi there"))
    (fun _ _ => Returns tt)
    (fun _ => Returns tt).

(** An interrupt arrives during the 5-second pause that follows an error
    in the main loop. *)
Definition interrupted_cooldown_world : World :=
  mkWorld
    (fun _ _ _ => Returns (batch_response []))
    (fun _ _ _ => Returns (batch_response []))
    (fun _ _ _ => Returns (one_choice "hi there"))
    (fun _ secs => if secs =? 5 then Raises (mkExn KeyboardInterrupt "")
                   else Raises (mkExn OtherException "sleep failed"))
    (fun _ => Returns tt).

(** An interrupt arrives during the pause between polls. *)
Definition interrupted_pause_world : World :=
  mkWorld
    (fun _ _ _ => Returns (batch_response []))
    (fun _ _ _ => Returns (batch_response []))
    (fun _ _ _ => Returns (one_choice "hi there"))
    (fun _ _ => Raises (mkExn KeyboardInterrupt ""))
    (fun _ => Returns tt).


(** ** Further observations and worlds *)

Definition action_url (cfg : Config) : string := TELEGRAM_API_URL cfg ++ "/sendChatAction".

Definition webhook_url (cfg : Config) : string := TELEGRAM_API_URL cfg ++ "/deleteWebhook".

(** The typing indicator [process_update] sends before it asks the model. *)
Definition typing_to (cfg : Config) (chat : Z) : event :=
  ClientPost (action_url cfg) (ChatAction chat "typing").

(** What the world answers to the [sendChatAction] request issued in [s]. *)
Definition action_answer (W : World) (cfg : Config) (s : Sys) (chat : Z) (action : string)
  : outcome Response :=
  client_post W (calls s) (action_url cfg) (ChatAction chat action).

Definition not_close (ev : event) : Prop :=
  match ev with ClientClose => False | _ => True end.

(** The settings of a process started without [TELEGRAM_BOT_TOKEN]. *)
Definition tokenless_cfg : Config := mkConfig None (Some "chat-endpoint") 2.

(** The Bot API answers every fetch with a success status and
    [{"ok": false}], although the body carries an update. *)
Definition refusing_world : World :=
  mkWorld
    (fun _ _ _ => Returns (mkResponse None
                             (Returns (mkTgData false (Some [text_update 9 7 "hello"])
                                         "{'ok': False, 'error_code': 409}"))))
    (fun _ _ _ => Returns (batch_response []))
    (fun _ _ _ => Returns (one_choice "hi there"))
    (fun _ _ => Returns tt)
    (fun _ => Returns tt).

(** Every delivery is answered with HTTP 400: [raise_for_status()] raises. *)
Definition rejecting_world : World :=
  mkWorld
    (fun _ _ _ => Returns (batch_response []))
    (fun _ _ _ => Returns (mkResponse (Some "Client error '400 Bad Request'")
                             (Returns (mkTgData false None "{'ok': False}"))))
    (fun _ _ _ => Returns (one_choice "hi there"))
    (fun _ _ => Returns tt)
    (fun _ => Returns tt).

(** An interrupt arrives inside every request to the Bot API that carries
    a payload. *)
Definition interrupted_delivery_world : World :=
  mkWorld
    (fun _ _ _ => Returns (batch_response []))
    (fun _ _ _ => Raises (mkExn KeyboardInterrupt ""))
    (fun _ _ _ => Returns (one_choice "hi there"))
    (fun _ _ => Returns tt)
    (fun _ => Returns tt).

(** Nothing works: requests fail to connect, the endpoint is down. *)
Definition hostile_world : World :=
  mkWorld
    (fun _ _ _ => Raises (mkExn HTTPError "All connection attempts failed"))
    (fun _ _ p => match p with
                  | ChatAction _ _ => Raises (mkExn HTTPError "All connection attempts failed")
                  | SendMessage _ _ _ => Returns (batch_response [])
                  end)
    (fun _ _ _ => Raises (mkExn OtherException "endpoint not found"))
    (fun _ _ => Returns tt)
    (fun _ => Returns tt).

(** An interrupt arrives while the endpoint is being queried. *)
Definition interrupted_query_world : World :=
  mkWorld
    (fun _ _ _ => Returns (batch_response []))
    (fun _ _ _ => Returns (batch_response []))
    (fun _ _ _ => Raises (mkExn KeyboardInterrupt ""))
    (fun _ _ => Returns tt)
    (fun _ => Returns tt).

(** ** The monad: how runs compose *)

#[local] Arguments String.append : simpl never.
#[local] Arguments startswith : simpl never.
#[local] Arguments py_str_int : simpl never.

Lemma run_eta {A} (m : M A) (s : Sys) :
  m s = (run_outcome m s, run_state m s, run_trace m s).
Proof.
  unfold run_outcome, run_state, run_trace.
  destruct (m s) as [[r s1] t]; reflexivity.
Qed.

Lemma bind_returns {A B} (m : M A) (k : A -> M B) s a s1 t1 :
  m s = (Returns a, s1, t1) ->
  bind m k s = (run_outcome (k a) s1, run_state (k a) s1, t1 ++ run_trace (k a) s1).
Proof.
  intros H. unfold bind. rewrite H, (run_eta (k a) s1). reflexivity.
Qed.

Lemma bind_raises {A B} (m : M A) (k : A -> M B) s e s1 t1 :
  m s = (Raises e, s1, t1) -> bind m k s = (Raises e, s1, t1).
Proof. intros H. unfold bind. rewrite H. reflexivity. Qed.

Lemma try_returns {A} (m : M A) h s a s1 t1 :
  m s = (Returns a, s1, t1) -> try_except m h s = (Returns a, s1, t1).
Proof. intros H. unfold try_except. rewrite H. reflexivity. Qed.

Lemma try_caught {A} (m : M A) h s e s1 t1 k :
  m s = (Raises e, s1, t1) -> h e = Some k ->
  try_except m h s = (run_outcome k s1, run_state k s1, t1 ++ run_trace k s1).
Proof.
  intros H Hh. unfold try_except. rewrite H, Hh, (run_eta k s1). reflexivity.
Qed.

Lemma try_uncaught {A} (m : M A) h s e s1 t1 :
  m s = (Raises e, s1, t1) -> h e = None -> try_except m h s = (Raises e, s1, t1).
Proof. intros H Hh. unfold try_except. rewrite H, Hh. reflexivity. Qed.

Lemma except_when_some {A} p (k : exn -> M A) e k' :
  except_when p k e = Some k' -> p e = true /\ k' = k e.
Proof.
  unfold except_when. destruct (p e); intros H; [ | discriminate ].
  inversion H; auto.
Qed.

(** *** Operations that leave the cursor alone *)

Create HintDb cursor.

Lemma keeps_ret {A} (a : A) : keeps_cursor (ret a).
Proof. intros s; reflexivity. Qed.

Lemma keeps_raise {A} (e : exn) : keeps_cursor (@raise A e).
Proof. intros s; reflexivity. Qed.

Lemma keeps_logger lvl msg : keeps_cursor (logger lvl msg).
Proof. intros s; reflexivity. Qed.

Lemma keeps_outbound {A} ev (f : nat -> outcome A) : keeps_cursor (outbound ev f).
Proof. intros s; reflexivity. Qed.

Lemma keeps_get_cursor : keeps_cursor get_last_update_id.
Proof. intros s; reflexivity. Qed.

Lemma keeps_of_outcome {A} (o : outcome A) : keeps_cursor (of_outcome o).
Proof. destruct o; intros s; reflexivity. Qed.

Lemma keeps_bind {A B} (m : M A) (k : A -> M B) :
  keeps_cursor m -> (forall a, keeps_cursor (k a)) -> keeps_cursor (bind m k).
Proof.
  intros Hm Hk s. specialize (Hm s). unfold run_state, bind in *.
  destruct (m s) as [[[a|e] s1] t1]; simpl in *; auto.
  specialize (Hk a s1). unfold run_state in Hk.
  destruct (k a s1) as [[r s2] t2]; simpl in *. congruence.
Qed.

Lemma keeps_try {A} (m : M A) h :
  keeps_cursor m -> (forall e k, h e = Some k -> keeps_cursor k) ->
  keeps_cursor (try_except m h).
Proof.
  intros Hm Hh s. specialize (Hm s). unfold run_state, try_except in *.
  destruct (m s) as [[[a|e] s1] t1]; simpl in *; auto.
  destruct (h e) as [k|] eqn:E; simpl; auto.
  specialize (Hh e k E s1). unfold run_state in Hh.
  destruct (k s1) as [[r s2] t2]; simpl in *. congruence.
Qed.

Lemma keeps_try_when {A} (m : M A) p k :
  keeps_cursor m -> (forall e, keeps_cursor (k e)) ->
  keeps_cursor (try_except m (except_when p k)).
Proof.
  intros Hm Hk. apply keeps_try; auto.
  intros e k' H. apply except_when_some in H. destruct H as [_ ->]. apply Hk.
Qed.

#[local] Hint Resolve keeps_ret keeps_raise keeps_logger keeps_outbound
  keeps_get_cursor keeps_of_outcome : cursor.

(** *** Operations whose events all satisfy a predicate *)

Create HintDb emits.

Lemma emits_ret {A} P (a : A) : emits P (ret a).
Proof. intros s; constructor. Qed.

Lemma emits_raise {A} P (e : exn) : emits P (@raise A e).
Proof. intros s; constructor. Qed.

Lemma emits_get_cursor P : emits P get_last_update_id.
Proof. intros s; constructor. Qed.

Lemma emits_of_outcome {A} P (o : outcome A) : emits P (of_outcome o).
Proof. destruct o; intros s; constructor. Qed.

Lemma emits_logger (P : event -> Prop) lvl msg : P (Log lvl msg) -> emits P (logger lvl msg).
Proof. intros H s. repeat constructor. exact H. Qed.

Lemma emits_outbound {A} (P : event -> Prop) ev (f : nat -> outcome A) :
  P ev -> emits P (outbound ev f).
Proof. intros H s. repeat constructor. exact H. Qed.

Lemma emits_bind {A B} P (m : M A) (k : A -> M B) :
  emits P m -> (forall a, emits P (k a)) -> emits P (bind m k).
Proof.
  intros Hm Hk s. specialize (Hm s). unfold run_trace, bind in *.
  destruct (m s) as [[[a|e] s1] t1]; simpl in *; auto.
  specialize (Hk a s1). unfold run_trace in Hk.
  destruct (k a s1) as [[r s2] t2]; simpl in *.
  apply Forall_app; auto.
Qed.

Lemma emits_try {A} P (m : M A) h :
  emits P m -> (forall e k, h e = Some k -> emits P k) -> emits P (try_except m h).
Proof.
  intros Hm Hh s. specialize (Hm s). unfold run_trace, try_except in *.
  destruct (m s) as [[[a|e] s1] t1]; simpl in *; auto.
  destruct (h e) as [k|] eqn:E; simpl; auto.
  specialize (Hh e k E s1). unfold run_trace in Hh.
  destruct (k s1) as [[r s2] t2]; simpl in *.
  apply Forall_app; auto.
Qed.

Lemma emits_try_when {A} P (m : M A) p k :
  emits P m -> (forall e, emits P (k e)) -> emits P (try_except m (except_when p k)).
Proof.
  intros Hm Hk. apply emits_try; auto.
  intros e k' H. apply except_when_some in H. destruct H as [_ ->]. apply Hk.
Qed.

#[local] Hint Resolve emits_ret emits_raise emits_get_cursor emits_of_outcome : emits.

(** ** The methods, one by one *)

Ltac keeps_step :=
  match goal with
  | |- keeps_cursor (bind _ _) => apply keeps_bind; [ | intros ? ]
  | |- keeps_cursor (try_except _ (except_when _ _)) => apply keeps_try_when; [ | intros ? ]
  | |- keeps_cursor (try_except _ (except_Exception _)) => apply keeps_try_when; [ | intros ? ]
  | |- keeps_cursor (try_except _ (except_HTTPError _)) => apply keeps_try_when; [ | intros ? ]
  | |- keeps_cursor (try_except _ (except_any _)) => apply keeps_try_when; [ | intros ? ]
  | |- keeps_cursor (match ?x with _ => _ end) => destruct x
  | |- keeps_cursor (if ?b then _ else _) => destruct b
  | |- keeps_cursor _ => solve [ auto with cursor ]
  end.

Ltac emits_step :=
  match goal with
  | |- emits _ (bind _ _) => apply emits_bind; [ | intros ? ]
  | |- emits _ (try_except _ (except_when _ _)) => apply emits_try_when; [ | intros ? ]
  | |- emits _ (try_except _ (except_Exception _)) => apply emits_try_when; [ | intros ? ]
  | |- emits _ (try_except _ (except_HTTPError _)) => apply emits_try_when; [ | intros ? ]
  | |- emits _ (try_except _ (except_any _)) => apply emits_try_when; [ | intros ? ]
  | |- emits _ (logger _ _) => apply emits_logger
  | |- emits _ (outbound _ _) => apply emits_outbound
  | |- emits _ (match ?x with _ => _ end) => destruct x eqn:?
  | |- emits _ (if ?b then _ else _) => destruct b eqn:?
  | |- emits _ _ => solve [ auto with emits ]
  end.

Section Methods.

Variable W : World.
Variable cfg : Config.

Lemma keeps_raise_for_status r : keeps_cursor (raise_for_status r).
Proof. unfold raise_for_status. repeat keeps_step. Qed.

Lemma keeps_send_to_databricks_endpoint msg :
  keeps_cursor (send_to_databricks_endpoint W cfg msg).
Proof. unfold send_to_databricks_endpoint. repeat keeps_step. Qed.

Lemma keeps_send_telegram_message chat body :
  keeps_cursor (send_telegram_message W cfg chat body).
Proof.
  unfold send_telegram_message. cbv zeta.
  repeat (keeps_step || apply keeps_raise_for_status).
Qed.

Lemma keeps_send_chat_action chat action :
  keeps_cursor (send_chat_action W cfg chat action).
Proof. unfold send_chat_action. cbv zeta. repeat keeps_step. Qed.

#[local] Hint Resolve keeps_raise_for_status keeps_send_to_databricks_endpoint
  keeps_send_telegram_message keeps_send_chat_action : cursor.

Lemma keeps_handle_update u : keeps_cursor (handle_update W cfg u).
Proof. unfold handle_update. cbv zeta. repeat keeps_step. Qed.

Lemma keeps_on_update_error u e : keeps_cursor (on_update_error W cfg u e).
Proof. unfold on_update_error. repeat keeps_step. Qed.

Lemma keeps_process_update u : keeps_cursor (process_update W cfg u).
Proof.
  unfold process_update. apply keeps_try_when.
  - apply keeps_handle_update.
  - apply keeps_on_update_error.
Qed.

Lemma keeps_process_updates B : keeps_cursor (process_updates W cfg B).
Proof.
  induction B as [| u rest IH]; simpl.
  - apply keeps_ret.
  - apply keeps_bind; [ apply keeps_process_update | intros _; exact IH ].
Qed.

End Methods.

Section Delivery.

Variable W : World.
Variable cfg : Config.

Lemma send_telegram_message_run chat body s :
  exists r logs,
    send_telegram_message W cfg chat body s = (r, bump s, reply_to cfg chat body :: logs) /\
    Forall (fun ev => is_log ev = true) logs /\
    (forall e, r = Raises e -> delivery_raises W cfg s chat body e).
Proof.
  unfold send_telegram_message, delivery_raises, post_answer, reply_to, send_url.
  cbv zeta. unfold try_except, bind, outbound, raise_for_status, except_HTTPError,
    except_when, logger, ret, raise, of_outcome, bump.
  destruct (client_post W (calls s) _ _) as [r|e] eqn:E.
  - destruct (status_error r) as [msg|] eqn:Es; simpl.
    + eexists _, _. split; [ reflexivity | ]. split; [ repeat constructor | ].
      intros e H; discriminate.
    + destruct (json r) as [d|e] eqn:Ej; simpl.
      * eexists _, _. split; [ reflexivity | ]. split; [ constructor | ].
        intros e H; discriminate.
      * destruct (is_HTTPError e) eqn:Eh; simpl.
        -- eexists _, _. split; [ reflexivity | ]. split; [ repeat constructor | ].
           intros e' H; discriminate.
        -- eexists _, _. split; [ reflexivity | ]. split; [ constructor | ].
           intros e' H; inversion H; subst e'. split; [ assumption | ].
           right. exists r. auto.
  - destruct (is_HTTPError e) eqn:Eh; simpl.
    + eexists _, _. split; [ reflexivity | ]. split; [ repeat constructor | ].
      intros e' H; discriminate.
    + eexists _, _. split; [ reflexivity | ]. split; [ constructor | ].
      intros e' H; inversion H; subst e'. split; [ assumption | ]. left; reflexivity.
Qed.

End Delivery.

Lemma outbound_calls_logs logs :
  Forall (fun ev => is_log ev = true) logs -> outbound_calls logs = [].
Proof.
  induction 1 as [| ev l Hev _ IH]; simpl; [ reflexivity | ].
  rewrite Hev. simpl. exact IH.
Qed.

Lemma outbound_calls_app t1 t2 :
  outbound_calls (t1 ++ t2) = outbound_calls t1 ++ outbound_calls t2.
Proof. apply filter_app. Qed.

Lemma outbound_calls_log lvl msg t :
  outbound_calls (Log lvl msg :: t) = outbound_calls t.
Proof. reflexivity. Qed.

Lemma outbound_calls_reply cfg chat body t :
  outbound_calls (reply_to cfg chat body :: t) = reply_to cfg chat body :: outbound_calls t.
Proof. reflexivity. Qed.

Ltac calls_of_trace :=
  repeat (rewrite outbound_calls_log || rewrite outbound_calls_reply
          || rewrite outbound_calls_app
          || (rewrite outbound_calls_logs by assumption));
  rewrite ?app_nil_r.

Section PerEvent.

Variable W : World.
Variable cfg : Config.

(** The [except] block of [process_update] always completes: it logs the
    error, attempts the notice once, and swallows whatever that raises. *)
Lemma on_update_error_run u e s :
  exists s2 logs,
    on_update_error W cfg u e s
    = (Returns tt, s2,
       Log ERROR ("Error processing update: " ++ exn_str e) :: error_notice cfg u ++ logs) /\
    Forall (fun ev => is_log ev = true) logs /\
    cursor s2 = cursor s.
Proof.
  unfold on_update_error, error_notice.
  destruct (message u) as [m|] eqn:Em.
  - destruct (send_telegram_message_run W cfg (chat_id m) processing_error_reply s)
      as (r & logs & Hrun & Hlogs & _).
    exists (bump s), logs. split; [ | split; [ exact Hlogs | reflexivity ] ].
    unfold bind at 1, logger at 1. unfold try_except.
    unfold bind at 1. rewrite Hrun.
    destruct r as [a|e']; simpl; rewrite ?app_nil_r; reflexivity.
  - exists s, []. split; [ reflexivity | split; [ constructor | reflexivity ] ].
Qed.

(** How [process_update] follows from its [try] block. *)
Lemma process_update_returns u s a s1 t1 :
  handle_update W cfg u s = (Returns a, s1, t1) ->
  process_update W cfg u s = (Returns a, s1, t1).
Proof. intros H. unfold process_update. apply try_returns; exact H. Qed.

Lemma process_update_caught u s e s1 t1 :
  handle_update W cfg u s = (Raises e, s1, t1) ->
  is_Exception e = true ->
  exists s2 logs,
    process_update W cfg u s
    = (Returns tt, s2,
       t1 ++ Log ERROR ("Error processing update: " ++ exn_str e)
          :: error_notice cfg u ++ logs) /\
    Forall (fun ev => is_log ev = true) logs.
Proof.
  intros H He.
  destruct (on_update_error_run u e s1) as (s2 & logs & Hrun & Hlogs & _).
  exists s2, logs. split; [ | exact Hlogs ].
  unfold process_update.
  rewrite (try_caught _ _ _ _ _ _ (on_update_error W cfg u e) H).
  - unfold run_outcome, run_state, run_trace. rewrite Hrun. reflexivity.
  - unfold except_Exception, except_when. rewrite He. reflexivity.
Qed.

Lemma process_update_uncaught u s e s1 t1 :
  handle_update W cfg u s = (Raises e, s1, t1) ->
  is_Exception e = false ->
  process_update W cfg u s = (Raises e, s1, t1).
Proof.
  intros H He. unfold process_update. apply try_uncaught; [ exact H | ].
  unfold except_Exception, except_when. rewrite He. reflexivity.
Qed.

(** The [try] block on a command: one log record, then the delivery of
    the canned reply, and nothing else. *)
Lemma handle_update_command u m txt s :
  message u = Some m -> text m = Some txt -> is_command txt = true ->
  exists r logs,
    handle_update W cfg u s
    = (r, bump s,
       Log INFO ("Processing message from " ++ user_name_of m ++ " (chat "
                 ++ py_str_int (chat_id m) ++ "): " ++ txt)
       :: reply_to cfg (chat_id m) (command_reply cfg (cursor s) txt) :: logs) /\
    Forall (fun ev => is_log ev = true) logs /\
    (forall e, r = Raises e ->
       delivery_raises W cfg s (chat_id m) (command_reply cfg (cursor s) txt) e).
Proof.
  intros Hm Ht Hc. unfold handle_update. rewrite Hm, Ht. cbv zeta.
  unfold is_command in Hc. unfold command_reply.
  destruct (send_telegram_message_run W cfg (chat_id m)
              (command_reply cfg (cursor s) txt) s) as (r & logs & Hrun & Hlogs & Hr).
  unfold command_reply in Hrun, Hr.
  exists (match r with Returns _ => Returns tt | Raises e => Raises e end), logs.
  split; [ | split; [ exact Hlogs | ] ].
  - unfold bind at 1, logger at 1.
    destruct (startswith txt "/start") eqn:E1;
      [ | destruct (startswith txt "/help") eqn:E2;
          [ | destruct (startswith txt "/status") eqn:E3; [ | discriminate ] ] ].
    + unfold bind at 1. rewrite Hrun.
      destruct r; simpl; rewrite ?app_nil_r; reflexivity.
    + unfold bind at 1. rewrite Hrun.
      destruct r; simpl; rewrite ?app_nil_r; reflexivity.
    + unfold bind at 1, get_last_update_id at 1. fold (cursor s).
      unfold bind at 1. rewrite Hrun.
      destruct r; simpl; rewrite ?app_nil_r; reflexivity.
  - intros e He. destruct r as [a|e']; [ discriminate | ].
    inversion He; subst e'. apply Hr. reflexivity.
Qed.

End PerEvent.

(** *** Prefix tests *)

Lemma startswith_app pre rest : startswith (pre ++ rest) pre = true.
Proof.
  unfold startswith. induction pre as [| a pre IH].
  - destruct rest; reflexivity.
  - change (String a pre ++ rest)%string with (String a (pre ++ rest)%string). simpl.
    destruct (ascii_dec a a) as [_ | Hne]; [ exact IH | contradiction ].
Qed.

Lemma startswith_cons a pre b s :
  startswith (String b s) (String a pre) = true -> a = b /\ startswith s pre = true.
Proof.
  unfold startswith. simpl. destruct (ascii_dec a b); [ auto | discriminate ].
Qed.

Lemma startswith_head_differs a pre b pre' s :
  a <> b -> startswith s (String a pre) = true -> startswith s (String b pre') = false.
Proof.
  intros Hne H. destruct s as [| c s]; [ reflexivity | ].
  apply startswith_cons in H. destruct H as [-> _].
  unfold startswith. simpl. destruct (ascii_dec b c); [ congruence | reflexivity ].
Qed.

Lemma startswith_tail_differs a pre pre' s :
  (forall s', startswith s' pre = true -> startswith s' pre' = false) ->
  startswith s (String a pre) = true -> startswith s (String a pre') = false.
Proof.
  intros Hd H. destruct s as [| c s]; [ reflexivity | ].
  apply startswith_cons in H. destruct H as [-> H].
  unfold startswith. simpl. destruct (ascii_dec c c); [ | reflexivity ].
  apply Hd. exact H.
Qed.

(** No text begins with two of the three command strings. *)
Lemma help_not_start txt :
  startswith txt "/help" = true -> startswith txt "/start" = false.
Proof.
  apply startswith_tail_differs. intros s'.
  apply startswith_head_differs. discriminate.
Qed.

Lemma status_not_start txt :
  startswith txt "/status" = true -> startswith txt "/start" = false.
Proof.
  do 4 (apply startswith_tail_differs; intros ?).
  apply startswith_head_differs. discriminate.
Qed.

Lemma status_not_help txt :
  startswith txt "/status" = true -> startswith txt "/help" = false.
Proof.
  apply startswith_tail_differs. intros s'.
  apply startswith_head_differs. discriminate.
Qed.

Lemma command_reply_start cfg c txt :
  startswith txt "/start" = true -> command_reply cfg c txt = start_reply.
Proof. intros H. unfold command_reply. rewrite H. reflexivity. Qed.

Lemma command_reply_help cfg c txt :
  startswith txt "/help" = true -> command_reply cfg c txt = help_reply.
Proof.
  intros H. unfold command_reply. rewrite (help_not_start _ H), H. reflexivity.
Qed.

Lemma command_reply_status cfg c txt :
  startswith txt "/status" = true -> command_reply cfg c txt = status_reply cfg c.
Proof.
  intros H. unfold command_reply.
  rewrite (status_not_start _ H), (status_not_help _ H). reflexivity.
Qed.

Lemma logs_not_query logs :
  Forall (fun ev => is_log ev = true) logs -> Forall not_query logs.
Proof.
  apply Forall_impl. intros [] H; simpl in *; auto; discriminate.
Qed.

Section Commands.

Variable W : World.
Variable cfg : Config.

(** What [process_update] does on a command, whatever the world answers:
    the canned reply is the only delivery, unless that delivery itself
    raises an error other than [httpx.HTTPError], in which case the
    [except] block adds its notice. *)
Lemma process_update_command u m txt s :
  message u = Some m -> text m = Some txt -> is_command txt = true ->
  let t := run_trace (process_update W cfg u) s in
  let canned := reply_to cfg (chat_id m) (command_reply cfg (cursor s) txt) in
  Forall not_query t /\
  (outbound_calls t = [canned] \/
   exists e,
     delivery_raises W cfg s (chat_id m) (command_reply cfg (cursor s) txt) e /\
     is_Exception e = true /\
     outbound_calls t = [canned; reply_to cfg (chat_id m) processing_error_reply]).
Proof.
  intros Hm Ht Hc t canned. subst t canned.
  destruct (handle_update_command W cfg u m txt s Hm Ht Hc)
    as (r & logs & Hrun & Hlogs & Hr).
  pose proof (logs_not_query _ Hlogs) as Hq.
  destruct r as [a|e]; [ | destruct (is_Exception e) eqn:He ].
  - unfold run_trace. rewrite (process_update_returns _ _ _ _ _ _ _ Hrun).
    cbn [snd]. split.
    + repeat (constructor; [ exact I | ]). exact Hq.
    + left. calls_of_trace. reflexivity.
  - destruct (process_update_caught _ _ _ _ _ _ _ Hrun He) as (s2 & logs2 & Hp & Hlogs2).
    pose proof (logs_not_query _ Hlogs2) as Hq2.
    unfold run_trace. rewrite Hp. unfold error_notice. rewrite Hm.
    cbn [snd]. split.
    + repeat (constructor; [ exact I | ]).
      apply Forall_app. split; [ exact Hq | ].
      repeat (constructor; [ exact I | ]). exact Hq2.
    + right. exists e. split; [ apply Hr; reflexivity | ]. split; [ exact He | ].
      rewrite <- !app_comm_cons. simpl app. calls_of_trace. reflexivity.
  - unfold run_trace. rewrite (process_update_uncaught _ _ _ _ _ _ _ Hrun He).
    cbn [snd]. split.
    + repeat (constructor; [ exact I | ]). exact Hq.
    + left. calls_of_trace. reflexivity.
Qed.

End Commands.

(** *** The fetch step *)

Lemma fold_max_ge l a : a <= fold_left Z.max l a.
Proof.
  revert a. induction l as [| x l IH]; intros a; simpl; [ lia | ].
  specialize (IH (Z.max a x)). lia.
Qed.

Lemma fold_max_bounds l a : Forall (fun x => x <= fold_left Z.max l a) l.
Proof.
  revert a. induction l as [| x l IH]; intros a; simpl; constructor.
  - pose proof (fold_max_ge l (Z.max a x)). lia.
  - apply IH.
Qed.

Lemma fold_max_in l a : fold_left Z.max l a = a \/ In (fold_left Z.max l a) l.
Proof.
  revert a. induction l as [| x l IH]; intros a; simpl; [ auto | ].
  destruct (IH (Z.max a x)) as [H | H]; [ | auto ].
  rewrite H. destruct (Z.max_spec a x) as [[_ ->] | [_ ->]]; auto.
Qed.

(** [max_update_id] is the maximum in the usual sense. *)
Lemma max_update_id_is_max u rest : is_max_id (max_update_id u rest) (u :: rest).
Proof.
  unfold is_max_id, max_update_id. split.
  - simpl. destruct (fold_max_in (map update_id rest) (update_id u)); auto.
  - constructor; [ apply fold_max_ge | ].
    pose proof (fold_max_bounds (map update_id rest) (update_id u)) as H.
    rewrite Forall_map in H. exact H.
Qed.

Lemma is_max_id_unique m m' B : is_max_id m B -> is_max_id m' B -> m = m'.
Proof.
  intros [Hin Hle] [Hin' Hle']. rewrite Forall_forall in Hle, Hle'.
  apply in_map_iff in Hin. destruct Hin as (x & <- & Hx).
  apply in_map_iff in Hin'. destruct Hin' as (y & <- & Hy).
  specialize (Hle _ Hy). specialize (Hle' _ Hx). lia.
Qed.

Section Fetch.

Variable W : World.
Variable cfg : Config.

(** Every run of [get_updates]: one request, carrying [offset = cursor + 1],
    then log records only; the cursor moves exactly when a non-empty batch
    comes back. *)
Lemma get_updates_run s :
  exists r s1 logs,
    get_updates W cfg s = (r, s1, fetch_after cfg (cursor s) :: logs) /\
    Forall (fun ev => is_log ev = true) logs /\
    calls s1 = S (calls s) /\
    match r with
    | Returns [] => cursor s1 = cursor s
    | Returns (u :: rest) =>
        cursor s1 = max_update_id u rest /\ fetch_delivers W cfg s (u :: rest)
    | Raises e => cursor s1 = cursor s /\ is_Exception e = false /\ fetch_error W cfg s e
    end.
Proof.
  unfold get_updates, fetch_delivers, fetch_error, get_answer, fetch_after, updates_url.
  cbv zeta.
  unfold bind at 1, get_last_update_id at 1. fold (cursor s).
  unfold try_except, bind, outbound, raise_for_status, except_Exception, except_when,
    logger, ret, raise, of_outcome, set_last_update_id.
  destruct (client_get W (calls s) _ _) as [r|e] eqn:E.
  - destruct (status_error r) as [msg|] eqn:Es; simpl.
    + eexists _, _, _. split; [ reflexivity | ].
      split; [ repeat constructor | ]. split; reflexivity.
    + destruct (json r) as [d|e] eqn:Ej; simpl.
      * destruct (ok d) eqn:Eok; simpl.
        -- destruct (result d) as [[| u rest]|] eqn:Er; simpl.
           ++ eexists _, _, _. split; [ reflexivity | ].
              split; [ constructor | ]. split; reflexivity.
           ++ eexists _, _, _. split; [ reflexivity | ].
              split; [ constructor | ]. split; [ reflexivity | ].
              split; [ reflexivity | ]. exists r, d. auto.
           ++ eexists _, _, _. split; [ reflexivity | ].
              split; [ constructor | ]. split; reflexivity.
        -- eexists _, _, _. split; [ reflexivity | ].
           split; [ repeat constructor | ]. split; reflexivity.
      * destruct (is_Exception e) eqn:He; simpl.
        -- eexists _, _, _. split; [ reflexivity | ].
           split; [ repeat constructor | ]. split; reflexivity.
        -- eexists _, _, _. split; [ reflexivity | ].
           split; [ constructor | ]. split; [ reflexivity | ].
           split; [ reflexivity | ]. split; [ exact He | ].
           right; right. exists r. auto.
  - destruct (is_Exception e) eqn:He; simpl.
    + eexists _, _, _. split; [ reflexivity | ].
      split; [ repeat constructor | ]. split; reflexivity.
    + eexists _, _, _. split; [ reflexivity | ].
      split; [ constructor | ]. split; [ reflexivity | ].
      split; [ reflexivity | ]. split; [ exact He | ]. left; reflexivity.
Qed.

(** A fetch that fails with an error is absorbed inside [get_updates]. *)
Lemma get_updates_on_error s e :
  fetch_error W cfg s e -> is_Exception e = true ->
  get_updates W cfg s
  = (Returns [], bump s,
     [fetch_after cfg (cursor s); Log ERROR ("Error polling Telegram: " ++ exn_str e)]).
Proof.
  unfold fetch_error, get_answer, get_updates, fetch_after, updates_url. cbv zeta.
  intros H He.
  unfold bind at 1, get_last_update_id at 1. fold (cursor s).
  unfold try_except, bind, outbound, raise_for_status, except_Exception, except_when,
    logger, ret, raise, of_outcome, bump.
  destruct H as [H | [(r & msg & H & Hs & ->) | (r & H & Hs & Hj)]]; rewrite H.
  - rewrite He. reflexivity.
  - rewrite Hs. reflexivity.
  - rewrite Hs, Hj. simpl. rewrite He. reflexivity.
Qed.

(** A successful fetch hands its batch to the caller as it came. *)
Lemma get_updates_on_batch s B :
  fetch_delivers W cfg s B ->
  exists s1,
    get_updates W cfg s = (Returns B, s1, [fetch_after cfg (cursor s)]) /\
    calls s1 = S (calls s) /\
    match B with
    | [] => cursor s1 = cursor s
    | u :: rest => cursor s1 = max_update_id u rest
    end.
Proof.
  unfold fetch_delivers, get_answer, get_updates, fetch_after, updates_url. cbv zeta.
  intros (r & d & H & Hs & Hj & Hok & Hr).
  unfold bind at 1, get_last_update_id at 1. fold (cursor s).
  unfold try_except, bind, outbound, raise_for_status, except_Exception, except_when,
    logger, ret, raise, of_outcome, set_last_update_id.
  rewrite H, Hs, Hj. simpl. rewrite Hok, Hr.
  destruct B as [| u rest]; simpl; eexists; (split; [ reflexivity | split; reflexivity ]).
Qed.

End Fetch.

(** *** What can be raised *)

Lemma raises_ret {A} Q (a : A) : raises_within Q (ret a).
Proof. intros s e H; discriminate. Qed.

Lemma raises_logger Q lvl msg : raises_within Q (logger lvl msg).
Proof. intros s e H; discriminate. Qed.

Lemma raises_get_cursor Q : raises_within Q get_last_update_id.
Proof. intros s e H; discriminate. Qed.

Lemma raises_outbound {A} (Q : exn -> Prop) ev (f : nat -> outcome A) :
  (forall n e, f n = Raises e -> Q e) -> raises_within Q (outbound ev f).
Proof. intros Hf s e H. apply (Hf (calls s)). exact H. Qed.

Lemma raises_of_outcome {A} (Q : exn -> Prop) (o : outcome A) :
  (forall e, o = Raises e -> Q e) -> raises_within Q (of_outcome o).
Proof. intros Ho s e H. apply Ho. destruct o; [ discriminate | exact H ]. Qed.

Lemma raises_bind {A B} Q (m : M A) (k : A -> M B) :
  raises_within Q m -> (forall a, raises_within Q (k a)) -> raises_within Q (bind m k).
Proof.
  intros Hm Hk s e. specialize (Hm s). unfold run_outcome, bind in *.
  destruct (m s) as [[[a|e1] s1] t1]; simpl in *.
  - specialize (Hk a s1 e). unfold run_outcome in Hk.
    destruct (k a s1) as [[r s2] t2]; simpl in *. exact Hk.
  - intros H. inversion H; subst e1. apply Hm. reflexivity.
Qed.

Lemma raises_try {A} (Q Q' : exn -> Prop) (m : M A) p k :
  raises_within Q' m ->
  (forall e, Q' e -> p e = false -> Q e) ->
  (forall e, raises_within Q (k e)) ->
  raises_within Q (try_except m (except_when p k)).
Proof.
  intros Hm Hp Hk s e. specialize (Hm s). unfold run_outcome, try_except, except_when in *.
  destruct (m s) as [[[a|e1] s1] t1]; simpl in *; [ discriminate | ].
  destruct (p e1) eqn:Ep.
  - specialize (Hk e1 s1 e). unfold run_outcome in Hk.
    destruct (k e1 s1) as [[r s2] t2]; simpl in *. exact Hk.
  - simpl. intros H; inversion H; subst e1. apply Hp; auto.
Qed.

(** A [try] whose body raises only errors and whose [except Exception]
    block completes never raises. *)
Lemma never_raises_try_Exception {A} (m : M A) k :
  raises_within (fun e => is_Exception e = true) m ->
  (forall e, never_raises (k e)) ->
  never_raises (try_except m (except_Exception k)).
Proof.
  intros Hm Hk. unfold never_raises, except_Exception.
  apply raises_try with (Q' := fun e => is_Exception e = true); auto.
  intros e H1 H2; congruence.
Qed.

Section Safety.

Variable W : World.
Variable cfg : Config.
Hypothesis Herr : raises_only_errors W.

Let errors_only {A} (m : M A) : Prop := raises_within (fun e => is_Exception e = true) m.

Lemma send_telegram_message_errors chat body :
  errors_only (send_telegram_message W cfg chat body).
Proof.
  intros s e H.
  destruct (send_telegram_message_run W cfg chat body s) as (r & logs & Hrun & _ & Hr).
  unfold run_outcome in H. rewrite Hrun in H. simpl in H.
  destruct (Hr e H) as [_ [Hp | (resp & Hp & _ & Hj)]]; unfold post_answer in Hp.
  - destruct Herr as (_ & H2 & _). eapply H2; eassumption.
  - destruct Herr as (_ & _ & H3 & _). eapply H3; eassumption.
Qed.

Lemma send_chat_action_errors chat action :
  errors_only (send_chat_action W cfg chat action).
Proof.
  unfold send_chat_action. cbv zeta.
  apply raises_try with (Q' := fun e => is_Exception e = true).
  - apply raises_bind; [ | intros; apply raises_ret ].
    apply raises_outbound. intros n e H.
    destruct Herr as (_ & H2 & _). eapply H2; eassumption.
  - auto.
  - intros e. apply raises_logger.
Qed.

Lemma send_to_databricks_endpoint_errors msg :
  errors_only (send_to_databricks_endpoint W cfg msg).
Proof.
  unfold send_to_databricks_endpoint.
  apply raises_try with (Q' := fun e => is_Exception e = true); auto.
  - apply raises_bind; [ apply raises_logger | intros _ ].
    apply raises_bind.
    + apply raises_outbound. intros n e H.
      destruct Herr as (_ & _ & _ & _ & H5). eapply H5; eassumption.
    + intros response. destruct (choices response) as [[| c l]|]; try apply raises_ret.
      apply raises_bind.
      * apply raises_of_outcome. unfold first_choice_content. intros e H.
        destruct (choice_message c) as [cm|]; [ destruct (content cm) | ];
          inversion H; reflexivity.
      * intros result. apply raises_bind; [ apply raises_logger | intros; apply raises_ret ].
  - intros e. apply raises_bind; [ apply raises_logger | intros; apply raises_ret ].
Qed.

Lemma handle_update_errors u : errors_only (handle_update W cfg u).
Proof.
  unfold handle_update. cbv zeta.
  destruct (message u) as [m|]; [ | apply raises_ret ].
  destruct (text m) as [txt|]; [ | apply raises_logger ].
  apply raises_bind; [ apply raises_logger | intros _ ].
  unfold errors_only.
  repeat match goal with
         | |- raises_within _ (if ?b then _ else _) => destruct b
         | |- raises_within _ (bind _ _) => apply raises_bind; [ | intros ? ]
         | |- raises_within _ (ret _) => apply raises_ret
         | |- raises_within _ (logger _ _) => apply raises_logger
         | |- raises_within _ get_last_update_id => apply raises_get_cursor
         | |- raises_within _ (send_telegram_message _ _ _ _) =>
             apply send_telegram_message_errors
         | |- raises_within _ (send_chat_action _ _ _ _) => apply send_chat_action_errors
         | |- raises_within _ (send_to_databricks_endpoint _ _ _) =>
             apply send_to_databricks_endpoint_errors
         end.
Qed.

Lemma on_update_error_completes u e : never_raises (on_update_error W cfg u e).
Proof.
  intros s e' H.
  destruct (on_update_error_run W cfg u e s) as (s2 & logs & Hrun & _).
  unfold run_outcome in H. rewrite Hrun in H. discriminate.
Qed.

Lemma process_update_completes u : never_raises (process_update W cfg u).
Proof.
  unfold process_update. apply never_raises_try_Exception.
  - apply handle_update_errors.
  - apply on_update_error_completes.
Qed.

Lemma process_updates_completes B : never_raises (process_updates W cfg B).
Proof.
  induction B as [| u rest IH]; simpl.
  - apply raises_ret.
  - apply raises_bind; [ apply process_update_completes | intros _; exact IH ].
Qed.

Lemma get_updates_completes : never_raises (get_updates W cfg).
Proof.
  intros s e H.
  destruct (get_updates_run W cfg s) as (r & s1 & logs & Hrun & _ & _ & Hr).
  unfold run_outcome in H. rewrite Hrun in H. simpl in H. subst r.
  destruct Hr as (_ & He & Hf).
  assert (is_Exception e = true); [ | congruence ].
  unfold get_answer in Hf.
  destruct Hf as [Hf | [(r & msg & _ & _ & ->) | (r & Hf & _ & Hj)]].
  - destruct Herr as (H1 & _). eapply H1; eassumption.
  - reflexivity.
  - destruct Herr as (_ & _ & _ & H4 & _). eapply H4; eassumption.
Qed.

End Safety.

(** *** Who is written to *)

Section Addressing.

Variable W : World.
Variable cfg : Config.

Lemma emits_raise_for_status P r : emits P (raise_for_status r).
Proof. unfold raise_for_status. repeat emits_step. Qed.

Lemma emits_send_telegram_message (P : event -> Prop) chat body :
  P (reply_to cfg chat body) -> (forall lvl msg, P (Log lvl msg)) ->
  emits P (send_telegram_message W cfg chat body).
Proof.
  intros Hp Hl. unfold send_telegram_message. cbv zeta.
  repeat (emits_step || apply emits_raise_for_status); auto.
Qed.

Lemma emits_send_chat_action (P : event -> Prop) chat action :
  (forall url, P (ClientPost url (ChatAction chat action))) ->
  (forall lvl msg, P (Log lvl msg)) ->
  emits P (send_chat_action W cfg chat action).
Proof.
  intros Hp Hl. unfold send_chat_action. cbv zeta. repeat emits_step; auto.
Qed.

Lemma emits_send_to_databricks_endpoint (P : event -> Prop) msg :
  (forall name, P (ServingQuery name msg)) -> (forall lvl txt, P (Log lvl txt)) ->
  emits P (send_to_databricks_endpoint W cfg msg).
Proof.
  intros Hp Hl. unfold send_to_databricks_endpoint. repeat emits_step; auto.
Qed.

(** Every delivery [process_update] attempts for [u] is addressed to the
    conversation [u] came from. *)
Lemma process_update_answers u : emits (answers u) (process_update W cfg u).
Proof.
  unfold process_update. apply emits_try_when; [ | intros e ].
  - unfold handle_update. cbv zeta.
    destruct (message u) as [m|] eqn:Em; [ | apply emits_ret ].
    destruct (text m) as [txt|]; [ | apply emits_logger; exact I ].
    repeat match goal with
           | |- emits _ (send_telegram_message _ _ _ _) =>
               apply emits_send_telegram_message;
               [ exists m; split; [ exact Em | reflexivity ] | intros; exact I ]
           | |- emits _ (send_chat_action _ _ _ _) =>
               apply emits_send_chat_action; intros; exact I
           | |- emits _ (send_to_databricks_endpoint _ _ _) =>
               apply emits_send_to_databricks_endpoint; intros; exact I
           | |- emits _ (logger _ _) => apply emits_logger; exact I
           | |- _ => emits_step
           end.
  - unfold on_update_error.
    apply emits_bind; [ apply emits_logger; exact I | intros _ ].
    apply emits_try_when; [ | intros; apply emits_ret ].
    destruct (message u) as [m|] eqn:Em; [ | apply emits_raise ].
    apply emits_bind; [ | intros; apply emits_ret ].
    apply emits_send_telegram_message;
      [ exists m; split; [ exact Em | reflexivity ] | intros; exact I ].
Qed.

(** The trace of a batch is its segments, end to end. *)
Lemma process_updates_segments B s :
  run_trace (process_updates W cfg B) s = concat (segments W cfg B s).
Proof.
  revert s. induction B as [| u rest IH]; intros s; [ reflexivity | ].
  simpl. unfold run_trace, bind.
  destruct (process_update W cfg u s) as [[[[]|e] s1] t1]; simpl.
  - specialize (IH s1). unfold run_trace in IH.
    destruct (process_updates W cfg rest s1) as [[r s2] t2]; simpl in *.
    rewrite IH. reflexivity.
  - rewrite app_nil_r. reflexivity.
Qed.

Lemma segments_length B s : (length (segments W cfg B s) <= length B)%nat.
Proof.
  revert s. induction B as [| u rest IH]; intros s; simpl; [ lia | ].
  destruct (process_update W cfg u s) as [[[a|e] s1] t1]; simpl.
  - specialize (IH s1). lia.
  - lia.
Qed.

Lemma segments_length_returns B s :
  run_outcome (process_updates W cfg B) s = Returns tt ->
  length (segments W cfg B s) = length B.
Proof.
  revert s. induction B as [| u rest IH]; intros s; simpl; [ reflexivity | ].
  unfold run_outcome, bind.
  destruct (process_update W cfg u s) as [[[a|e] s1] t1]; simpl.
  - specialize (IH s1). unfold run_outcome in IH.
    destruct (process_updates W cfg rest s1) as [[r s2] t2]; simpl in *.
    intros H. rewrite (IH H). reflexivity.
  - discriminate.
Qed.

Lemma segments_nth B s i u seg :
  nth_error B i = Some u -> nth_error (segments W cfg B s) i = Some seg ->
  exists si, seg = run_trace (process_update W cfg u) si.
Proof.
  revert s i. induction B as [| u0 rest IH]; intros s i Hu Hs.
  - destruct i; discriminate.
  - simpl in Hs. destruct i as [| j]; simpl in Hu.
    + inversion Hu; subst u0. exists s. unfold run_trace.
      destruct (process_update W cfg u s) as [[[a|e] s1] t1]; simpl in *;
        inversion Hs; reflexivity.
    + destruct (process_update W cfg u0 s) as [[[a|e] s1] t1]; simpl in Hs.
      * eapply IH; eassumption.
      * destruct j; discriminate.
Qed.

End Addressing.

(** A batch in two parts is the first part, then the second. *)
Lemma process_updates_app W cfg B1 B2 s :
  process_updates W cfg (B1 ++ B2) s
  = bind (process_updates W cfg B1) (fun _ => process_updates W cfg B2) s.
Proof.
  revert s. induction B1 as [| u B1 IH]; intros s.
  - simpl. unfold bind, ret.
    destruct (process_updates W cfg B2 s) as [[r s2] t2]. reflexivity.
  - simpl. unfold bind at 1 2 3.
    destruct (process_update W cfg u s) as [[[[]|e] s1] t1]; [ | reflexivity ].
    rewrite IH. unfold bind.
    destruct (process_updates W cfg B1 s1) as [[[[]|e1] s2] t2]; [ | reflexivity ].
    destruct (process_updates W cfg B2 s2) as [[r3 s3] t3].
    rewrite app_assoc. reflexivity.
Qed.

(** *** Sequencing, seen from the first step *)

Lemma trace_bind_returns {A B} (m : M A) (k : A -> M B) s a :
  run_outcome m s = Returns a ->
  run_trace (bind m k) s = run_trace m s ++ run_trace (k a) (run_state m s).
Proof.
  unfold run_outcome, run_trace, run_state, bind.
  destruct (m s) as [[r s1] t1]; simpl. intros ->.
  destruct (k a s1) as [[r2 s2] t2]; reflexivity.
Qed.

Lemma state_bind_returns {A B} (m : M A) (k : A -> M B) s a :
  run_outcome m s = Returns a ->
  run_state (bind m k) s = run_state (k a) (run_state m s).
Proof.
  unfold run_outcome, run_state, bind.
  destruct (m s) as [[r s1] t1]; simpl. intros ->.
  destruct (k a s1) as [[r2 s2] t2]; reflexivity.
Qed.

Lemma outcome_bind_returns {A B} (m : M A) (k : A -> M B) s a :
  run_outcome m s = Returns a ->
  run_outcome (bind m k) s = run_outcome (k a) (run_state m s).
Proof.
  unfold run_outcome, run_state, bind.
  destruct (m s) as [[r s1] t1]; simpl. intros ->.
  destruct (k a s1) as [[r2 s2] t2]; reflexivity.
Qed.

Lemma trace_try_prefix {A} (m : M A) h s :
  exists tail, run_trace (try_except m h) s = run_trace m s ++ tail.
Proof.
  unfold run_trace, try_except.
  destruct (m s) as [[[a|e] s1] t1]; simpl.
  - exists []. rewrite app_nil_r. reflexivity.
  - destruct (h e) as [k|]; simpl.
    + destruct (k s1) as [[r s2] t2]. exists t2. reflexivity.
    + exists []. rewrite app_nil_r. reflexivity.
Qed.

Lemma cursor_after_bind {A B} (m : M A) (k : A -> M B) s :
  (forall a, keeps_cursor (k a)) ->
  cursor (run_state (bind m k) s) = cursor (run_state m s).
Proof.
  intros Hk. unfold run_state, bind.
  destruct (m s) as [[[a|e] s1] t1]; simpl; [ | reflexivity ].
  specialize (Hk a s1). unfold run_state in Hk.
  destruct (k a s1) as [[r s2] t2]; simpl in *. exact Hk.
Qed.

Lemma cursor_after_try {A} (m : M A) h s :
  (forall e k, h e = Some k -> keeps_cursor k) ->
  cursor (run_state (try_except m h) s) = cursor (run_state m s).
Proof.
  intros Hh. unfold run_state, try_except.
  destruct (m s) as [[[a|e] s1] t1]; simpl; [ reflexivity | ].
  destruct (h e) as [k|] eqn:E; simpl; [ | reflexivity ].
  specialize (Hh e k E s1). unfold run_state in Hh.
  destruct (k s1) as [[r s2] t2]; simpl in *. exact Hh.
Qed.

(** *** Operations that never lower the cursor *)

Lemma grows_of_keeps {A} (m : M A) : keeps_cursor m -> cursor_grows m.
Proof. intros H s. rewrite (H s). lia. Qed.

Lemma grows_bind {A B} (m : M A) (k : A -> M B) :
  cursor_grows m -> (forall a, cursor_grows (k a)) -> cursor_grows (bind m k).
Proof.
  intros Hm Hk s. specialize (Hm s). unfold run_state, bind in *.
  destruct (m s) as [[[a|e] s1] t1]; simpl in *; auto.
  specialize (Hk a s1). unfold run_state in Hk.
  destruct (k a s1) as [[r s2] t2]; simpl in *. lia.
Qed.

Lemma grows_try {A} (m : M A) h :
  cursor_grows m -> (forall e k, h e = Some k -> cursor_grows k) ->
  cursor_grows (try_except m h).
Proof.
  intros Hm Hh s. specialize (Hm s). unfold run_state, try_except in *.
  destruct (m s) as [[[a|e] s1] t1]; simpl in *; auto.
  destruct (h e) as [k|] eqn:E; simpl; auto.
  specialize (Hh e k E s1). unfold run_state in Hh.
  destruct (k s1) as [[r s2] t2]; simpl in *. lia.
Qed.

Section Loop.

Variable W : World.
Variable cfg : Config.

Lemma keeps_dispatch_batch B : keeps_cursor (dispatch_batch W cfg B).
Proof.
  unfold dispatch_batch. destruct B; [ apply keeps_ret | ].
  apply keeps_bind; [ apply keeps_logger | intros _; apply keeps_process_updates ].
Qed.

Lemma keeps_on_loop_error e k : on_loop_error W e = Some k -> keeps_cursor k.
Proof.
  unfold on_loop_error.
  destruct (is_KeyboardInterrupt e); [ | destruct (is_Exception e) ];
    intros H; inversion H; subst k; repeat keeps_step.
Qed.

(** After a turn of the loop the cursor is the one the fetch left. *)
Lemma cursor_after_iteration s :
  cursor (run_state (run_iteration W cfg) s) = cursor (run_state (get_updates W cfg) s).
Proof.
  unfold run_iteration. rewrite cursor_after_try by apply keeps_on_loop_error.
  unfold poll_once. apply cursor_after_bind. intros B.
  apply keeps_bind; [ apply keeps_dispatch_batch | intros _ ].
  repeat keeps_step.
Qed.

Lemma grows_get_updates : batches_reach_cursor W -> cursor_grows (get_updates W cfg).
Proof.
  intros HW s.
  destruct (get_updates_run W cfg s) as (r & s1 & logs & Hrun & _ & _ & Hr).
  unfold run_state. rewrite Hrun. simpl.
  destruct r as [[| u rest]|e].
  - lia.
  - destruct Hr as (-> & resp & d & Hg & _ & Hj & _ & Hres).
    unfold get_answer in Hg.
    specialize (HW _ _ _ _ _ _ _ Hg Hj Hres). simpl in HW. lia.
  - destruct Hr as (-> & _). lia.
Qed.

Lemma grows_run_iteration : batches_reach_cursor W -> cursor_grows (run_iteration W cfg).
Proof.
  intros HW s. rewrite cursor_after_iteration. apply grows_get_updates. exact HW.
Qed.

Lemma grows_run_loop fuel : batches_reach_cursor W -> cursor_grows (run_loop W cfg fuel).
Proof.
  intros HW. induction fuel as [| n IH]; simpl.
  - apply grows_of_keeps, keeps_ret.
  - apply grows_bind; [ apply grows_run_iteration; exact HW | ].
    intros [|]; [ exact IH | apply grows_of_keeps, keeps_ret ].
Qed.

Lemma grows_run fuel : batches_reach_cursor W -> cursor_grows (run W cfg fuel).
Proof.
  intros HW. unfold run.
  repeat (apply grows_bind;
          [ first [ apply grows_run_loop; exact HW
                  | apply grows_of_keeps; repeat keeps_step ]
          | intros ? ]).
  match goal with
  | |- cursor_grows (match ?x with _ => _ end) => destruct x
  end; apply grows_of_keeps; repeat keeps_step.
Qed.

End Loop.

Lemma trace_bind_prefix {A B} (m : M A) (k : A -> M B) s :
  exists tail, run_trace (bind m k) s = run_trace m s ++ tail.
Proof.
  unfold run_trace, bind.
  destruct (m s) as [[[a|e] s1] t1]; simpl.
  - destruct (k a s1) as [[r s2] t2]. exists t2. reflexivity.
  - exists []. rewrite app_nil_r. reflexivity.
Qed.


(** ** The cursor and the fetch request *)



Lemma get_updates_calls W cfg s :
  outbound_calls (run_trace (get_updates W cfg) s) = [fetch_after cfg (cursor s)].
Proof.
  destruct (get_updates_run W cfg s) as (r & s1 & logs & Hrun & Hlogs & _).
  unfold run_trace. rewrite Hrun. cbn [snd].
  change (outbound_calls (fetch_after cfg (cursor s) :: logs))
    with (fetch_after cfg (cursor s) :: outbound_calls logs).
  rewrite (outbound_calls_logs _ Hlogs). reflexivity.
Qed.

Lemma cursor_after_batch W cfg s B m :
  run_outcome (get_updates W cfg) s = Returns B -> is_max_id m B ->
  cursor (run_state (get_updates W cfg) s) = m.
Proof.
  intros Hret Hmax.
  destruct (get_updates_run W cfg s) as (r & s1 & logs & Hrun & _ & _ & Hr).
  unfold run_outcome in Hret. rewrite Hrun in Hret. simpl in Hret. subst r.
  unfold run_state. rewrite Hrun. simpl.
  destruct B as [| u rest].
  - destruct Hmax as [[] _].
  - destruct Hr as [-> _].
    eapply is_max_id_unique; [ apply max_update_id_is_max | exact Hmax ].
Qed.

(** C2. The only outbound call of a fetch is one [getUpdates] request, and
    it carries [offset = cursor + 1]: it asks for events with an id above
    the cursor only.  After a fetch that returned a batch whose largest id
    is [m], the fetch of the next turn of the loop carries [offset = m + 1],
    above the id of every event of that batch. *)
Theorem fetch_asks_above_cursor W cfg :
  (forall s,
     outbound_calls (run_trace (get_updates W cfg) s)
     = [ClientGet (updates_url cfg) (Some (mkGetParams (cursor s + 1) 30 ["message"]))]) /\
  (forall s B m,
     run_outcome (get_updates W cfg) s = Returns B -> is_max_id m B ->
     let next := run_state (run_iteration W cfg) s in
     outbound_calls (run_trace (get_updates W cfg) next)
     = [ClientGet (updates_url cfg) (Some (mkGetParams (m + 1) 30 ["message"]))] /\
     Forall (fun u => update_id u < m + 1) B).
Proof.
  split.
  - intros s. apply get_updates_calls.
  - intros s B m Hret Hmax next. split.
    + rewrite get_updates_calls. subst next.
      rewrite cursor_after_iteration, (cursor_after_batch _ _ _ _ _ Hret Hmax).
      reflexivity.
    + destruct Hmax as [_ Hle]. revert Hle. apply Forall_impl. intros u Hu. lia.
Qed.

(** C2, on the stub that answers both of two consecutive fetches with
    event 101: the second request carries offset 102. *)
Lemma fetch_asks_above_cursor_witness :
  let W := stub_world [text_update 101 7 "hello"] "hi there" in
  let B := [text_update 101 7 "hello"] in
  run_outcome (get_updates W demo_cfg) init = Returns B /\
  is_max_id 101 B /\
  run_outcome (get_updates W demo_cfg) (run_state (run_iteration W demo_cfg) init)
  = Returns B /\
  outbound_calls (run_trace (get_updates W demo_cfg)
                    (run_state (run_iteration W demo_cfg) init))
  = [ClientGet (updates_url demo_cfg) (Some (mkGetParams 102 30 ["message"]))].
Proof.
  intros W B.
  assert (Hret : run_outcome (get_updates W demo_cfg) init = Returns B) by reflexivity.
  assert (Hmax : is_max_id 101 B).
  { split; [ left; reflexivity | repeat constructor; simpl; lia ]. }
  split; [ exact Hret | ]. split; [ exact Hmax | ]. split; [ reflexivity | ].
  exact (proj1 (proj2 (fetch_asks_above_cursor W demo_cfg) init B 101 Hret Hmax)).
Defined.

(** ** Commands *)





(** C10. Commands are recognised by prefix: a text that only begins with
    [/start], [/help] or [/status], whatever follows, gets the canned reply
    of that command as the first outbound call, and the serving endpoint is
    not called.  The embedding tests the prefixes in the order of the
    source, [/start], [/help], [/status]; no text begins with two of them
    ([help_not_start], [status_not_start], [status_not_help]). *)
Theorem command_matched_by_prefix W cfg u m rest s :
  message u = Some m ->
  let t := run_trace (process_update W cfg u) s in
  let first_call_is body :=
    Forall not_query t /\
    hd_error (outbound_calls t)
    = Some (ClientPost (send_url cfg) (SendMessage (chat_id m) body "Markdown")) in
  (text m = Some ("/start" ++ rest)%string -> first_call_is start_reply) /\
  (text m = Some ("/help" ++ rest)%string -> first_call_is help_reply) /\
  (text m = Some ("/status" ++ rest)%string -> first_call_is (status_reply cfg (cursor s))).
Proof.
  intros Hm t first_call_is.
  assert (Hgen : forall txt body,
             text m = Some txt -> is_command txt = true ->
             command_reply cfg (cursor s) txt = body -> first_call_is body).
  { intros txt body Ht Hc Hb.
    destruct (process_update_command W cfg u m txt s Hm Ht Hc) as [Hq Hcalls].
    fold t in Hq, Hcalls. rewrite Hb in Hcalls.
    split; [ exact Hq | ].
    destruct Hcalls as [-> | (e & _ & _ & ->)]; reflexivity. }
  split; [ | split ]; intros Ht; apply (Hgen _ _ Ht).
  - unfold is_command. rewrite startswith_app. reflexivity.
  - apply command_reply_start, startswith_app.
  - unfold is_command. rewrite (startswith_app "/help"), orb_true_r. reflexivity.
  - apply command_reply_help, startswith_app.
  - unfold is_command. rewrite (startswith_app "/status"), orb_true_r. reflexivity.
  - apply command_reply_status, startswith_app.
Qed.

(** C10, for [/starting] and [/status_extra]. *)
Lemma command_matched_by_prefix_witness :
  let W := stub_world [] "hi there" in
  let s := mkSys (mkPoller 41) 3 in
  hd_error (outbound_calls (run_trace
     (process_update W demo_cfg (text_update 42 7 "/starting")) s))
  = Some (ClientPost (send_url demo_cfg) (SendMessage 7 start_reply "Markdown")) /\
  hd_error (outbound_calls (run_trace
     (process_update W demo_cfg (text_update 43 7 "/status_extra")) s))
  = Some (ClientPost (send_url demo_cfg)
            (SendMessage 7 (status_reply demo_cfg 41) "Markdown")).
Proof.
  intros W s. split.
  - exact (proj2 (proj1 (command_matched_by_prefix W demo_cfg
                           (text_update 42 7 "/starting")
                           (mkMessage 7 (Some "/starting") None) "ing" s eq_refl)
                   eq_refl)).
  - exact (proj2 (proj2 (proj2 (command_matched_by_prefix W demo_cfg
                           (text_update 43 7 "/status_extra")
                           (mkMessage 7 (Some "/status_extra") None) "_extra" s eq_refl))
                   eq_refl)).
Defined.

(** ** The generation client *)



(** ** Errors while handling an event *)

Lemma never_raises_returns {A} (m : M A) s :
  never_raises m -> exists a, run_outcome m s = Returns a.
Proof.
  intros H. destruct (run_outcome m s) as [a|e] eqn:E; [ eauto | ].
  destruct (H s e E).
Qed.

Lemma outcome_try_returns {A} (m : M A) h s a :
  run_outcome m s = Returns a -> run_outcome (try_except m h) s = Returns a.
Proof.
  unfold run_outcome, try_except.
  destruct (m s) as [[r s1] t1]; simpl. intros ->. reflexivity.
Qed.

Section KeepsRunning.

Variable W : World.
Variable cfg : Config.
Hypothesis Herr : raises_only_errors W.

Lemma dispatch_batch_completes B : never_raises (dispatch_batch W cfg B).
Proof.
  unfold dispatch_batch. destruct B; [ apply raises_ret | ].
  apply raises_bind; [ apply raises_logger | intros _ ].
  apply process_updates_completes; exact Herr.
Qed.

Lemma run_iteration_continues s :
  sleep_returns W -> run_outcome (run_iteration W cfg) s = Returns Continue.
Proof.
  intros Hsleep. unfold run_iteration. apply outcome_try_returns. unfold poll_once.
  destruct (never_raises_returns (get_updates W cfg) s
              (get_updates_completes W cfg Herr)) as (B & HB).
  rewrite (outcome_bind_returns _ _ _ _ HB).
  destruct (never_raises_returns (dispatch_batch W cfg B)
              (run_state (get_updates W cfg) s) (dispatch_batch_completes B)) as ([] & HD).
  rewrite (outcome_bind_returns _ _ _ _ HD).
  unfold run_outcome at 1, bind, outbound. rewrite Hsleep. reflexivity.
Qed.

Lemma run_loop_keeps_running fuel s :
  sleep_returns W -> run_outcome (run_loop W cfg fuel) s = Returns None.
Proof.
  intros Hsleep. revert s. induction fuel as [| n IH]; intros s; [ reflexivity | ].
  simpl. rewrite (outcome_bind_returns _ _ _ _ (run_iteration_continues s Hsleep)).
  apply IH.
Qed.

End KeepsRunning.

Section BatchLoop.

Variable W : World.
Variable cfg : Config.
Hypothesis Herr : raises_only_errors W.

(** With errors only, the event in the middle of a batch is handled from
    the state its predecessors left, and its successors from the state it
    left, whatever happened while it was handled. *)
Lemma process_updates_around B1 u B2 s :
  let mid := run_state (process_updates W cfg B1) s in
  let after := run_state (process_update W cfg u) mid in
  process_updates W cfg (B1 ++ u :: B2) s
  = (Returns tt, run_state (process_updates W cfg B2) after,
     run_trace (process_updates W cfg B1) s
     ++ run_trace (process_update W cfg u) mid
     ++ run_trace (process_updates W cfg B2) after).
Proof.
  intros mid after.
  destruct (never_raises_returns (process_updates W cfg B1) s
              (process_updates_completes W cfg Herr B1)) as ([] & H1).
  destruct (never_raises_returns (process_update W cfg u) mid
              (process_update_completes W cfg Herr u)) as ([] & Hu).
  destruct (never_raises_returns (process_updates W cfg B2) after
              (process_updates_completes W cfg Herr B2)) as ([] & H2).
  rewrite process_updates_app.
  rewrite (run_eta (bind _ _) s).
  rewrite (outcome_bind_returns _ _ _ _ H1), (state_bind_returns _ _ _ _ H1),
    (trace_bind_returns _ _ _ _ H1).
  fold mid.
  change (process_updates W cfg (u :: B2))
    with (bind (process_update W cfg u) (fun _ => process_updates W cfg B2)).
  rewrite (outcome_bind_returns _ _ _ _ Hu), (state_bind_returns _ _ _ _ Hu),
    (trace_bind_returns _ _ _ _ Hu).
  fold after. rewrite H2. reflexivity.
Qed.

(** With errors only and pauses that return, a turn of the loop is the
    fetch, the handling of every event the fetch returned, and the pause. *)
Lemma run_iteration_handles_batch s B :
  sleep_returns W ->
  run_outcome (get_updates W cfg) s = Returns B ->
  exists pre,
    Forall (fun ev => is_log ev = true) pre /\
    run_trace (run_iteration W cfg) s
    = run_trace (get_updates W cfg) s ++ pre
      ++ run_trace (process_updates W cfg B) (run_state (get_updates W cfg) s)
      ++ [AsyncSleep (POLL_INTERVAL cfg)].
Proof.
  intros Hsleep HB.
  set (s1 := run_state (get_updates W cfg) s).
  assert (Hd : exists pre,
             Forall (fun ev => is_log ev = true) pre /\
             run_outcome (dispatch_batch W cfg B) s1 = Returns tt /\
             run_trace (dispatch_batch W cfg B) s1
             = pre ++ run_trace (process_updates W cfg B) s1).
  { unfold dispatch_batch. destruct B as [| u rest].
    - exists []. split; [ constructor | ]. split; reflexivity.
    - exists [Log INFO ("Received " ++ py_str_int (Z.of_nat (length (u :: rest)))
                        ++ " new updates")].
      split; [ repeat constructor | ].
      rewrite (outcome_bind_returns (logger _ _) _ s1 tt eq_refl),
        (trace_bind_returns (logger _ _) _ s1 tt eq_refl).
      split; [ | reflexivity ].
      destruct (never_raises_returns (process_updates W cfg (u :: rest)) s1
                  (process_updates_completes W cfg Herr (u :: rest))) as ([] & H).
      exact H. }
  destruct Hd as (pre & Hpre & Hdo & Hdt).
  exists pre. split; [ exact Hpre | ].
  assert (Hz : forall s2,
             bind (outbound (AsyncSleep (POLL_INTERVAL cfg))
                     (fun n => asyncio_sleep W n (POLL_INTERVAL cfg)))
               (fun _ => ret Continue) s2
             = (Returns Continue, bump s2, [AsyncSleep (POLL_INTERVAL cfg)])).
  { intros s2. unfold bind, outbound, ret. rewrite Hsleep. reflexivity. }
  assert (Hzt : forall s2,
             run_trace (bind (outbound (AsyncSleep (POLL_INTERVAL cfg))
                                (fun n => asyncio_sleep W n (POLL_INTERVAL cfg)))
                          (fun _ => ret Continue)) s2
             = [AsyncSleep (POLL_INTERVAL cfg)])
    by (intros s2; unfold run_trace; rewrite Hz; reflexivity).
  assert (Hzo : forall s2,
             run_outcome (bind (outbound (AsyncSleep (POLL_INTERVAL cfg))
                                  (fun n => asyncio_sleep W n (POLL_INTERVAL cfg)))
                            (fun _ => ret Continue)) s2
             = Returns Continue)
    by (intros s2; unfold run_outcome; rewrite Hz; reflexivity).
  assert (Hp : run_trace (poll_once W cfg) s
               = run_trace (get_updates W cfg) s ++ pre
                 ++ run_trace (process_updates W cfg B) s1
                 ++ [AsyncSleep (POLL_INTERVAL cfg)]
               /\ run_outcome (poll_once W cfg) s = Returns Continue).
  { unfold poll_once.
    rewrite (trace_bind_returns _ _ _ _ HB), (outcome_bind_returns _ _ _ _ HB).
    fold s1.
    rewrite (trace_bind_returns _ _ _ _ Hdo), (outcome_bind_returns _ _ _ _ Hdo), Hdt.
    rewrite Hzt, Hzo, <- !app_assoc. split; reflexivity. }
  destruct Hp as [Hpt Hpo]. rewrite <- Hpt.
  unfold run_iteration, run_trace, run_outcome, try_except in *.
  destruct (poll_once W cfg s) as [[[c|e] s2] t2]; [ reflexivity | discriminate ].
Qed.

End BatchLoop.

(** C5. When the network calls raise errors only, handling one event never
    raises: [process_update] returns.  An error raised in its [try] block
    is logged and then answered, once and without a retry, with the generic
    notice in the conversation of the event.  The batch loop therefore goes
    through the whole batch: [process_updates] returns, its trace is the
    traces of [process_update] on each event of the batch, in order and
    one for each event, and an event in the middle of a batch is followed
    by the handling of all the events after it, from the state it left,
    whatever happened while it was handled.  When the pauses return, a turn
    of the main loop is the fetch, the handling of every event the fetch
    returned, and the pause; it ends in [Continue], and the loop is still
    running after any number of turns. *)
Theorem event_errors_stay_in_event W cfg :
  raises_only_errors W ->
  (forall u s, run_outcome (process_update W cfg u) s = Returns tt) /\
  (forall u s e s1 t1,
     handle_update W cfg u s = (Raises e, s1, t1) ->
     exists m logs,
       message u = Some m /\
       Forall (fun ev => is_log ev = true) logs /\
       run_trace (process_update W cfg u) s
       = t1 ++ Log ERROR ("Error processing update: " ++ exn_str e)
            :: ClientPost (send_url cfg)
                 (SendMessage (chat_id m) processing_error_reply "Markdown")
            :: logs) /\
  (forall B s,
     run_outcome (process_updates W cfg B) s = Returns tt /\
     length (segments W cfg B s) = length B /\
     run_trace (process_updates W cfg B) s = concat (segments W cfg B s) /\
     (forall i u seg,
        nth_error B i = Some u -> nth_error (segments W cfg B s) i = Some seg ->
        exists si, seg = run_trace (process_update W cfg u) si)) /\
  (forall B1 u B2 s,
     let mid := run_state (process_updates W cfg B1) s in
     let after := run_state (process_update W cfg u) mid in
     process_updates W cfg (B1 ++ u :: B2) s
     = (Returns tt, run_state (process_updates W cfg B2) after,
        run_trace (process_updates W cfg B1) s
        ++ run_trace (process_update W cfg u) mid
        ++ run_trace (process_updates W cfg B2) after)) /\
  (sleep_returns W ->
   forall fuel s,
     run_outcome (run_iteration W cfg) s = Returns Continue /\
     run_outcome (run_loop W cfg fuel) s = Returns None /\
     (forall B,
        run_outcome (get_updates W cfg) s = Returns B ->
        exists pre,
          Forall (fun ev => is_log ev = true) pre /\
          run_trace (run_iteration W cfg) s
          = run_trace (get_updates W cfg) s ++ pre
            ++ concat (segments W cfg B (run_state (get_updates W cfg) s))
            ++ [AsyncSleep (POLL_INTERVAL cfg)])).
Proof.
  intros Herr. split; [ | split; [ | split; [ | split ] ] ].
  - intros u s.
    destruct (never_raises_returns (process_update W cfg u) s
                (process_update_completes W cfg Herr u)) as ([] & H).
    exact H.
  - intros u s e s1 t1 Hrun.
    assert (He : is_Exception e = true).
    { apply (handle_update_errors W cfg Herr u s e).
      unfold run_outcome. rewrite Hrun. reflexivity. }
    destruct (process_update_caught W cfg u s e s1 t1 Hrun He) as (s2 & logs & Hp & Hlogs).
    destruct (message u) as [m|] eqn:Em.
    + exists m, logs. split; [ reflexivity | ]. split; [ exact Hlogs | ].
      unfold run_trace. rewrite Hp. unfold error_notice. rewrite Em. reflexivity.
    + unfold handle_update in Hrun. rewrite Em in Hrun. discriminate.
  - intros B s.
    destruct (never_raises_returns (process_updates W cfg B) s
                (process_updates_completes W cfg Herr B)) as ([] & H).
    split; [ exact H | ].
    split; [ apply segments_length_returns; exact H | ].
    split; [ apply process_updates_segments | ].
    intros i u seg Hu Hseg. exact (segments_nth W cfg B s i u seg Hu Hseg).
  - intros B1 u B2 s. apply process_updates_around. exact Herr.
  - intros Hsleep fuel s.
    split; [ apply run_iteration_continues; assumption | ].
    split; [ apply run_loop_keeps_running; assumption | ].
    intros B HB.
    destruct (run_iteration_handles_batch W cfg Herr s B Hsleep HB) as (pre & Hpre & Ht).
    exists pre. split; [ exact Hpre | ].
    rewrite <- process_updates_segments. exact Ht.
Qed.

Lemma garbled_delivery_errors_only B : raises_only_errors (garbled_delivery_world B).
Proof.
  unfold raises_only_errors, garbled_delivery_world; simpl.
  split; [ | split; [ | split; [ | split ] ] ].
  - intros n url [p|] e H; discriminate.
  - intros n url p e H; discriminate.
  - intros n url p r e H Hj. inversion H; subst r. simpl in Hj.
    inversion Hj. reflexivity.
  - intros n url [p|] r e H Hj; inversion H; subst r; discriminate.
  - intros n name msg e H; discriminate.
Qed.

(** C5, on a batch of two events whose deliveries all come back with a body
    that cannot be decoded: handling the first event fails, it is answered
    with the notice, the second event is handled after it all the same, and
    the turn of the loop that fetched the batch holds both and goes on. *)
Lemma event_errors_stay_in_event_witness :
  let u1 := text_update 1 7 "/start" in
  let u2 := text_update 2 8 "hello" in
  let W := garbled_delivery_world [u1; u2] in
  let after := run_state (process_update W demo_cfg u1) init in
  run_outcome (handle_update W demo_cfg u1) init
  = Raises (mkExn OtherException "Expecting value") /\
  run_outcome (process_update W demo_cfg u1) init = Returns tt /\
  length (segments W demo_cfg [u1; u2] init) = 2%nat /\
  process_updates W demo_cfg ([] ++ u1 :: [u2]) init
  = (Returns tt, run_state (process_updates W demo_cfg [u2]) after,
     run_trace (process_updates W demo_cfg []) init
     ++ run_trace (process_update W demo_cfg u1) init
     ++ run_trace (process_updates W demo_cfg [u2]) after) /\
  run_outcome (run_loop W demo_cfg 3) init = Returns None /\
  exists pre,
    Forall (fun ev => is_log ev = true) pre /\
    run_trace (run_iteration W demo_cfg) init
    = run_trace (get_updates W demo_cfg) init ++ pre
      ++ concat (segments W demo_cfg [u1; u2] (run_state (get_updates W demo_cfg) init))
      ++ [AsyncSleep 2].
Proof.
  intros u1 u2 W after.
  destruct (event_errors_stay_in_event W demo_cfg (garbled_delivery_errors_only [u1; u2]))
    as (Hone & _ & Hall & Hmid & Hloop).
  split; [ reflexivity | ].
  split; [ apply Hone | ].
  split; [ apply (Hall [u1; u2] init) | ].
  split; [ exact (Hmid [] u1 [u2] init) | ].
  destruct (Hloop (fun _ _ => eq_refl) 3%nat init) as (_ & Hrun & Hturn).
  split; [ exact Hrun | ].
  exact (Hturn [u1; u2] eq_refl).
Defined.

(** ** Errors in the fetch step and in the main loop *)

(** C6, as stated, fails.  Telegram is unreachable and the request of the
    fetch raises [httpx.ConnectError]: the error is logged by [get_updates],
    not by the main loop, and the pause that follows is [POLL_INTERVAL]
    (2 seconds here), not the 5-second one. *)
Lemma fetch_error_reaches_main_loop_counterexample :
  fetch_error offline_world demo_cfg init
    (mkExn HTTPError "All connection attempts failed") /\
  run_iteration offline_world demo_cfg init
  = (Returns Continue, mkSys (mkPoller 0) 2,
     [ClientGet (updates_url demo_cfg) (Some (mkGetParams 1 30 ["message"]));
      Log ERROR "Error polling Telegram: All connection attempts failed";
      AsyncSleep 2]) /\
  ~ In (AsyncSleep 5) (run_trace (run_iteration offline_world demo_cfg) init) /\
  ~ In (Log ERROR "Error in main loop: All connection attempts failed")
       (run_trace (run_iteration offline_world demo_cfg) init).
Proof.
  split; [ left; reflexivity | ].
  split; [ reflexivity | ].
  split; intros H; vm_compute in H; intuition discriminate.
Qed.

(** C6, amended.  An error raised in the fetch step (by the request, by
    the status check or by decoding the body) does not reach the main loop:
    [get_updates] logs it and returns the empty batch, the cursor stays,
    nothing is sent to any conversation, and the turn ends with the
    ordinary [POLL_INTERVAL] pause.  An error that does reach the handler
    of the main loop is logged there and followed by a 5-second pause.
    Either way the turn ends in [Continue] once the pause returns. *)
Theorem fetch_errors_absorbed_loop_errors_cooled W cfg s e :
  is_Exception e = true ->
  (fetch_error W cfg s e ->
   run_outcome (get_updates W cfg) s = Returns [] /\
   (asyncio_sleep W (S (calls s)) (POLL_INTERVAL cfg) = Returns tt ->
    run_iteration W cfg s
    = (Returns Continue, bump (bump s),
       [ClientGet (updates_url cfg) (Some (mkGetParams (cursor s + 1) 30 ["message"]));
        Log ERROR ("Error polling Telegram: " ++ exn_str e);
        AsyncSleep (POLL_INTERVAL cfg)]))) /\
  (forall s1 t1,
     poll_once W cfg s = (Raises e, s1, t1) ->
     run_trace (run_iteration W cfg) s
     = t1 ++ [Log ERROR ("Error in main loop: " ++ exn_str e); AsyncSleep 5] /\
     cursor (run_state (run_iteration W cfg) s) = cursor s1 /\
     (asyncio_sleep W (calls s1) 5 = Returns tt ->
      run_outcome (run_iteration W cfg) s = Returns Continue)).
Proof.
  intros He. split.
  - intros Hf. pose proof (get_updates_on_error W cfg s e Hf He) as Hg.
    split; [ unfold run_outcome; rewrite Hg; reflexivity | ].
    intros Hsleep. unfold run_iteration, poll_once.
    apply try_returns.
    rewrite (bind_returns _ _ _ _ _ _ Hg).
    unfold run_outcome, run_state, run_trace, dispatch_batch, bind, ret, outbound.
    simpl. rewrite Hsleep. reflexivity.
  - intros s1 t1 Hp.
    assert (Hk : is_KeyboardInterrupt e = false).
    { unfold is_Exception, is_KeyboardInterrupt in *. destruct (exn_cls e); congruence. }
    unfold run_iteration, run_trace, run_state, run_outcome, try_except, on_loop_error.
    rewrite Hp, Hk, He.
    unfold bind, logger, outbound, ret. simpl.
    destruct (asyncio_sleep W (calls s1) 5) as [[]|e5]; simpl.
    + split; [ reflexivity | ]. split; reflexivity.
    + split; [ reflexivity | ]. split; [ reflexivity | discriminate ].
Qed.

(** C6, amended: an unreachable Telegram, and a pause that raises. *)
Lemma fetch_errors_absorbed_loop_errors_cooled_witness :
  run_iteration offline_world demo_cfg init
  = (Returns Continue, mkSys (mkPoller 0) 2,
     [ClientGet (updates_url demo_cfg) (Some (mkGetParams 1 30 ["message"]));
      Log ERROR "Error polling Telegram: All connection attempts failed";
      AsyncSleep 2]) /\
  run_trace (run_iteration restless_world demo_cfg) init
  = [ClientGet (updates_url demo_cfg) (Some (mkGetParams 1 30 ["message"]));
     AsyncSleep 2;
     Log ERROR "Error in main loop: sleep failed";
     AsyncSleep 5] /\
  run_outcome (run_iteration restless_world demo_cfg) init = Returns Continue.
Proof.
  split; [ | split ].
  - apply (proj1 (fetch_errors_absorbed_loop_errors_cooled offline_world demo_cfg init
                    (mkExn HTTPError "All connection attempts failed") eq_refl)).
    + left; reflexivity.
    + reflexivity.
  - apply (proj2 (fetch_errors_absorbed_loop_errors_cooled restless_world demo_cfg init
                    (mkExn OtherException "sleep failed") eq_refl)
             (mkSys (mkPoller 0) 2)
             [ClientGet (updates_url demo_cfg) (Some (mkGetParams 1 30 ["message"]));
              AsyncSleep 2]).
    reflexivity.
  - apply (proj2 (fetch_errors_absorbed_loop_errors_cooled restless_world demo_cfg init
                    (mkExn OtherException "sleep failed") eq_refl)
             (mkSys (mkPoller 0) 2)
             [ClientGet (updates_url demo_cfg) (Some (mkGetParams 1 30 ["message"]));
              AsyncSleep 2]).
    + reflexivity.
    + reflexivity.
Defined.

(** ** The cursor over a whole run *)

Section Turns.

Variable W : World.
Variable cfg : Config.
Hypothesis HW : batches_reach_cursor W.

Lemma run_loop_S fuel :
  run_loop W cfg (S fuel)
  = bind (run_iteration W cfg)
      (fun c => match c with
                | Break => ret (Some tt)
                | Continue => run_loop W cfg fuel
                end).
Proof. reflexivity. Qed.

(** One more turn of the loop never lowers the cursor reached so far. *)
Lemma cursor_after_one_more_turn fuel s :
  cursor (run_state (run_loop W cfg fuel) s)
  <= cursor (run_state (run_loop W cfg (S fuel)) s).
Proof.
  revert s. induction fuel as [| n IH]; intros s.
  - apply (grows_run_loop W cfg 1 HW s).
  - rewrite (run_loop_S (S n)), (run_loop_S n).
    unfold run_state, bind.
    destruct (run_iteration W cfg s) as [[[[|]|e] s1] t1]; cbn [fst snd].
    + specialize (IH s1). rewrite (run_loop_S n) in IH. unfold run_state, bind in IH.
      destruct (run_loop W cfg n s1) as [[r2 s2] t2].
      destruct (run_iteration W cfg s1) as [[[[|]|e3] s3] t3]; cbn [fst snd] in *.
      * destruct (run_loop W cfg n s3) as [[r4 s4] t4]. exact IH.
      * exact IH.
      * exact IH.
    + lia.
    + lia.
Qed.

End Turns.

(** C7, as stated, fails.  The transport answers the first fetch with event
    101 and the second with event 50: the cursor goes from 0 to 101 and
    then back to 50. *)
Lemma cursor_never_decreases_counterexample :
  cursor (run_state (run_loop rewinding_world demo_cfg 1) init) = 101 /\
  cursor (run_state (run_loop rewinding_world demo_cfg 2) init) = 50 /\
  run_outcome (get_updates rewinding_world demo_cfg) (mkSys (mkPoller 101) 2)
  = Returns [text_update 50 7 "again"] /\
  cursor (run_state (get_updates rewinding_world demo_cfg) (mkSys (mkPoller 101) 2)) = 50.
Proof. repeat split; reflexivity. Qed.

(** C7, amended.  When no batch the transport returns has its largest
    [update_id] below the cursor it was requested from, the cursor never
    decreases: the fetch leaves it unchanged or raises it, every other
    operation of the poller leaves it unchanged, and over a run it is at
    least its initial value after any number of turns and never lower after
    one more turn. *)
Theorem cursor_never_decreases W cfg :
  batches_reach_cursor W ->
  (forall s, cursor s <= cursor (run_state (get_updates W cfg) s)) /\
  (forall u s, cursor (run_state (process_update W cfg u) s) = cursor s) /\
  (forall chat body s,
     cursor (run_state (send_telegram_message W cfg chat body) s) = cursor s) /\
  (forall chat action s,
     cursor (run_state (send_chat_action W cfg chat action) s) = cursor s) /\
  (forall msg s,
     cursor (run_state (send_to_databricks_endpoint W cfg msg) s) = cursor s) /\
  (forall s, cursor s <= cursor (run_state (run_iteration W cfg) s)) /\
  (forall fuel s, cursor s <= cursor (run_state (run W cfg fuel) s)) /\
  (forall fuel s,
     cursor s <= cursor (run_state (run_loop W cfg fuel) s) /\
     cursor (run_state (run_loop W cfg fuel) s)
     <= cursor (run_state (run_loop W cfg (S fuel)) s)).
Proof.
  intros HW. repeat split; intros.
  - apply grows_get_updates; exact HW.
  - apply keeps_process_update.
  - apply keeps_send_telegram_message.
  - apply keeps_send_chat_action.
  - apply keeps_send_to_databricks_endpoint.
  - apply grows_run_iteration; exact HW.
  - apply grows_run; exact HW.
  - apply grows_run_loop; exact HW.
  - apply cursor_after_one_more_turn; exact HW.
Qed.

Lemma honest_world_reaches_cursor : batches_reach_cursor honest_world.
Proof.
  intros n url p r d u rest H Hj Hres. simpl in H.
  inversion H; subst r. simpl in Hj. inversion Hj; subst d. simpl in Hres.
  inversion Hres; subst u rest. unfold max_update_id. simpl. lia.
Qed.

(** C7, amended, on a transport that honours the offset: three turns take
    the cursor from 0 to 3. *)
Lemma cursor_never_decreases_witness :
  cursor (run_state (run_loop honest_world demo_cfg 3) init) = 3 /\
  cursor init <= cursor (run_state (run_loop honest_world demo_cfg 3) init) /\
  cursor (run_state (run_loop honest_world demo_cfg 3) init)
  <= cursor (run_state (run_loop honest_world demo_cfg 4) init).
Proof.
  split; [ reflexivity | ].
  destruct (cursor_never_decreases honest_world demo_cfg honest_world_reaches_cursor)
    as (_ & _ & _ & _ & _ & _ & _ & Hloop).
  exact (Hloop 3%nat init).
Defined.

(** ** Order of handling *)

(** C8. The events of a batch are handled one after the other, in the order
    of the batch: the trace of [process_updates] is the traces of the single
    events laid end to end in that order, the i-th of them being a run of
    [process_update] on the i-th event, and every delivery in it going to
    the conversation of that event.  So whatever is sent for an event comes
    before everything sent for a later one.  There is one segment for each
    event when the loop runs to its end (the list is shorter only when an
    exception that is not an error leaves the loop). *)
Theorem replies_follow_arrival_order W cfg B s :
  let segs := segments W cfg B s in
  run_trace (process_updates W cfg B) s = concat segs /\
  (length segs <= length B)%nat /\
  (run_outcome (process_updates W cfg B) s = Returns tt -> length segs = length B) /\
  (forall i u seg,
     nth_error B i = Some u -> nth_error segs i = Some seg ->
     (exists si, seg = run_trace (process_update W cfg u) si) /\
     Forall (answers u) seg).
Proof.
  intros segs. subst segs.
  split; [ apply process_updates_segments | ].
  split; [ apply segments_length | ].
  split; [ apply segments_length_returns | ].
  intros i u seg Hu Hseg.
  destruct (segments_nth W cfg B s i u seg Hu Hseg) as (si & ->).
  split; [ exists si; reflexivity | apply process_update_answers ].
Qed.

(** C8, on a batch of two events from two conversations. *)
Lemma replies_follow_arrival_order_witness :
  let B := [text_update 1 7 "/start"; text_update 2 8 "hello"] in
  let W := stub_world B "hi there" in
  length (segments W demo_cfg B init) = 2%nat /\
  outbound_calls (concat (segments W demo_cfg B init))
  = [ClientPost (send_url demo_cfg) (SendMessage 7 start_reply "Markdown");
     ClientPost (TELEGRAM_API_URL demo_cfg ++ "/sendChatAction") (ChatAction 8 "typing");
     ServingQuery (Some "chat-endpoint") "hello";
     ClientPost (send_url demo_cfg) (SendMessage 8 "hi there" "Markdown")].
Proof.
  intros B W.
  destruct (replies_follow_arrival_order W demo_cfg B init) as (Htrace & _ & Hlen & _).
  split; [ apply Hlen; reflexivity | ].
  rewrite <- Htrace. reflexivity.
Defined.

(** ** Release of the client *)

Lemma trace_ends_bind {A B} (m : M A) (k : A -> M B) s b z :
  run_outcome (bind m k) s = Returns b ->
  (forall a s', run_outcome (k a) s' = Returns b -> exists t, run_trace (k a) s' = t ++ z) ->
  exists t, run_trace (bind m k) s = t ++ z.
Proof.
  unfold run_outcome, run_trace, bind. intros H Hk.
  destruct (m s) as [[[a|e] s1] t1]; [ | discriminate ].
  specialize (Hk a s1). unfold run_outcome, run_trace in Hk.
  destruct (k a s1) as [[r s2] t2]; simpl in *.
  destruct (Hk H) as (t & ->). exists (t1 ++ t). apply app_assoc.
Qed.

(** When [run] returns after the loop was left, its last two steps are the
    release of the client and the closing log record. *)
Lemma run_returns_after_release W cfg fuel s :
  run_outcome (run W cfg fuel) s = Returns (Some tt) ->
  exists t, run_trace (run W cfg fuel) s = t ++ [ClientClose; Log INFO "Poller stopped"].
Proof.
  unfold run. intros H.
  repeat (eapply trace_ends_bind; [ exact H | clear s H; intros ? s H ]).
  match goal with
  | H : run_outcome (match ?x with _ => _ end) _ = _ |- _ => destruct x as [[]|]
  end; [ | discriminate ].
  revert H. unfold run_outcome, run_trace, bind, outbound, logger, ret.
  destruct (client_aclose W (calls s)) as [[]|e]; [ | discriminate ].
  intros _. exists []. reflexivity.
Qed.

(** C9 fails on the code.  The task is cancelled while it waits in the
    long poll: [asyncio.CancelledError] matches neither [except] clause of
    the loop, leaves [run], and the client is never closed.  The same
    happens when the interrupt arrives during the 5-second pause of the
    error handler.  Only an interrupt caught by the [try] block itself
    reaches the release. *)
Theorem client_not_released_when_loop_raises fuel :
  (run_outcome (run cancelling_world demo_cfg (S fuel)) init
   = Raises (mkExn OtherBaseException "CancelledError") /\
   ~ In ClientClose (run_trace (run cancelling_world demo_cfg (S fuel)) init)) /\
  (run_outcome (run interrupted_cooldown_world demo_cfg (S fuel)) init
   = Raises (mkExn KeyboardInterrupt "") /\
   ~ In ClientClose (run_trace (run interrupted_cooldown_world demo_cfg (S fuel)) init)) /\
  (run_outcome (run interrupted_pause_world demo_cfg (S fuel)) init = Returns (Some tt) /\
   outbound_calls (run_trace (run interrupted_pause_world demo_cfg (S fuel)) init)
   = [ClientGet (TELEGRAM_API_URL demo_cfg ++ "/deleteWebhook") None;
      ClientGet (updates_url demo_cfg) (Some (mkGetParams 1 30 ["message"]));
      AsyncSleep 2;
      ClientClose]).
Proof.
  repeat split; try reflexivity;
    intros H; vm_compute in H; intuition discriminate.
Qed.

(** * Further properties of the poller *)

(** ** The three outbound helpers *)

(** X1. [send_telegram_message] makes one [sendMessage] request and never
    retries.  A request that raises an [httpx.HTTPError], or an answer
    whose status check raises, does not raise out of the method: the error
    is logged and the method returns the dictionary with the error text.
    With a success status and a decodable body it returns that body and
    logs nothing.  What it does raise is never an [httpx.HTTPError]. *)
Theorem delivery_absorbs_http_errors W cfg chat body s :
  let request := ClientPost (send_url cfg) (SendMessage chat body "Markdown") in
  outbound_calls (run_trace (send_telegram_message W cfg chat body) s) = [request] /\
  run_state (send_telegram_message W cfg chat body) s = bump s /\
  (forall e,
     post_answer W cfg s chat body = Raises e -> is_HTTPError e = true ->
     send_telegram_message W cfg chat body s
     = (Returns (SendFailed (exn_str e)), bump s,
        [request; Log ERROR ("Error sending message to Telegram: " ++ exn_str e)])) /\
  (forall r msg,
     post_answer W cfg s chat body = Returns r -> status_error r = Some msg ->
     send_telegram_message W cfg chat body s
     = (Returns (SendFailed msg), bump s,
        [request; Log ERROR ("Error sending message to Telegram: " ++ msg)])) /\
  (forall r d,
     post_answer W cfg s chat body = Returns r -> status_error r = None ->
     json r = Returns d ->
     send_telegram_message W cfg chat body s = (Returns (ApiJson d), bump s, [request])) /\
  (forall e,
     run_outcome (send_telegram_message W cfg chat body) s = Raises e ->
     is_HTTPError e = false).
Proof.
  intros request. subst request.
  destruct (send_telegram_message_run W cfg chat body s) as (r & logs & Hrun & Hlogs & Hr).
  split; [ | split; [ | split; [ | split; [ | split ] ] ] ].
  - unfold run_trace. rewrite Hrun. cbn [snd]. calls_of_trace. reflexivity.
  - unfold run_state. rewrite Hrun. reflexivity.
  - clear. unfold post_answer, send_url. intros e He Hh.
    unfold send_telegram_message. cbv zeta.
    unfold try_except, bind, outbound, except_HTTPError, except_when, logger, ret, bump.
    rewrite He, Hh. reflexivity.
  - clear. unfold post_answer, send_url. intros r msg Hp Hs.
    unfold send_telegram_message. cbv zeta.
    unfold try_except, bind, outbound, raise_for_status, except_HTTPError, except_when,
      logger, ret, raise, bump.
    rewrite Hp, Hs. reflexivity.
  - clear. unfold post_answer, send_url. intros r d Hp Hs Hj.
    unfold send_telegram_message. cbv zeta.
    unfold try_except, bind, outbound, raise_for_status, of_outcome, ret, bump.
    rewrite Hp, Hs, Hj. reflexivity.
  - intros e He. unfold run_outcome in He. rewrite Hrun in He.
    exact (proj1 (Hr e He)).
Qed.

(** X1, when Telegram cannot be reached and when it answers 400. *)
Lemma delivery_absorbs_http_errors_witness :
  run_outcome (send_telegram_message offline_world demo_cfg 7 "hi") init
  = Returns (SendFailed "All connection attempts failed") /\
  run_outcome (send_telegram_message rejecting_world demo_cfg 7 "hi") init
  = Returns (SendFailed "Client error '400 Bad Request'").
Proof.
  split.
  - destruct (delivery_absorbs_http_errors offline_world demo_cfg 7 "hi" init)
      as (_ & _ & H & _).
    unfold run_outcome.
    rewrite (H (mkExn HTTPError "All connection attempts failed") eq_refl eq_refl).
    reflexivity.
  - destruct (delivery_absorbs_http_errors rejecting_world demo_cfg 7 "hi" init)
      as (_ & _ & _ & H & _).
    unfold run_outcome. rewrite (H _ _ eq_refl eq_refl). reflexivity.
Defined.

(** X2. [send_chat_action] is best effort: it makes one request; an error
    raised by the request is logged as a warning and the method returns;
    the answer is not inspected, so a failure status goes unnoticed.  Only
    an exception that is not an [Exception] comes out of it. *)
Theorem chat_action_is_best_effort W cfg chat action s :
  let request := ClientPost (action_url cfg) (ChatAction chat action) in
  (forall r,
     action_answer W cfg s chat action = Returns r ->
     send_chat_action W cfg chat action s = (Returns tt, bump s, [request])) /\
  (forall e,
     action_answer W cfg s chat action = Raises e -> is_Exception e = true ->
     send_chat_action W cfg chat action s
     = (Returns tt, bump s,
        [request; Log WARNING ("Failed to send chat action: " ++ exn_str e)])) /\
  (forall e,
     action_answer W cfg s chat action = Raises e -> is_Exception e = false ->
     send_chat_action W cfg chat action s = (Raises e, bump s, [request])).
Proof.
  intros request. subst request. unfold action_answer, action_url.
  unfold send_chat_action. cbv zeta.
  unfold try_except, bind, outbound, except_Exception, except_when, logger, ret, bump.
  split; [ | split ].
  - intros r ->. reflexivity.
  - intros e -> ->. reflexivity.
  - intros e -> ->. reflexivity.
Qed.

(** X2, with a 400 answer that goes unnoticed and with no connection. *)
Lemma chat_action_is_best_effort_witness :
  send_chat_action rejecting_world demo_cfg 7 "typing" init
  = (Returns tt, bump init, [typing_to demo_cfg 7]) /\
  run_outcome (send_chat_action offline_world demo_cfg 7 "typing") init = Returns tt.
Proof.
  destruct (chat_action_is_best_effort rejecting_world demo_cfg 7 "typing" init)
    as (Hok & _).
  destruct (chat_action_is_best_effort offline_world demo_cfg 7 "typing" init)
    as (_ & Herr & _).
  split.
  - exact (Hok _ eq_refl).
  - unfold run_outcome.
    rewrite (Herr (mkExn HTTPError "All connection attempts failed") eq_refl eq_refl).
    reflexivity.
Defined.

(** Every run of [send_to_databricks_endpoint]: one log record, one query,
    then log records only. *)
Lemma send_to_databricks_endpoint_run W cfg msg s :
  exists r logs,
    send_to_databricks_endpoint W cfg msg s
    = (r, bump s,
       Log INFO ("Sending to Databricks endpoint: " ++ py_slice_to 100 msg)
       :: ServingQuery (DATABRICKS_SERVING_ENDPOINT cfg) msg :: logs) /\
    Forall (fun ev => is_log ev = true) logs /\
    (forall e, r = Raises e -> is_Exception e = false /\ query_answer W cfg s msg = Raises e) /\
    (forall e, query_answer W cfg s msg = Raises e -> is_Exception e = true ->
               r = Returns (endpoint_error_reply e)).
Proof.
  unfold query_answer, send_to_databricks_endpoint.
  unfold try_except, bind, outbound, logger, except_Exception, except_when, ret, bump.
  destruct (serving_query W (calls s) _ msg) as [resp|e] eqn:Eq; simpl.
  - destruct (choices resp) as [[| c cs]|]; simpl.
    + eexists _, _. split; [ reflexivity | ]. split; [ constructor | ].
      split; intros; discriminate.
    + unfold first_choice_content.
      destruct (choice_message c) as [cm|]; [ destruct (content cm) | ]; simpl;
        (eexists _, _; split; [ reflexivity | ]; split; [ repeat constructor | ];
         split; intros; discriminate).
    + eexists _, _. split; [ reflexivity | ]. split; [ constructor | ].
      split; intros; discriminate.
  - destruct (is_Exception e) eqn:He; simpl.
    + eexists _, _. split; [ reflexivity | ]. split; [ repeat constructor | ].
      split; [ intros; discriminate | ].
      intros e' H _. inversion H. reflexivity.
    + eexists _, _. split; [ reflexivity | ]. split; [ constructor | ].
      split; [ intros e' H; inversion H; subst; auto | ].
      intros e' H H'. inversion H; subst. congruence.
Qed.

(** X3. [send_to_databricks_endpoint] asks the endpoint exactly once,
    whatever comes back, with the configured endpoint name and the text as
    it was given.  An exception comes out of it only when the query itself
    raised it and it is not an [Exception]. *)
Theorem endpoint_is_queried_once W cfg msg s :
  outbound_calls (run_trace (send_to_databricks_endpoint W cfg msg) s)
  = [ServingQuery (DATABRICKS_SERVING_ENDPOINT cfg) msg] /\
  run_state (send_to_databricks_endpoint W cfg msg) s = bump s /\
  (forall e,
     run_outcome (send_to_databricks_endpoint W cfg msg) s = Raises e ->
     is_Exception e = false /\ query_answer W cfg s msg = Raises e).
Proof.
  destruct (send_to_databricks_endpoint_run W cfg msg s)
    as (r & logs & Hrun & Hlogs & Hr & _).
  unfold run_trace, run_state, run_outcome. rewrite Hrun. cbn [fst snd].
  split; [ | split; [ reflexivity | exact Hr ] ].
  rewrite outbound_calls_log.
  change (outbound_calls (ServingQuery (DATABRICKS_SERVING_ENDPOINT cfg) msg :: logs))
    with (ServingQuery (DATABRICKS_SERVING_ENDPOINT cfg) msg :: outbound_calls logs).
  rewrite (outbound_calls_logs _ Hlogs). reflexivity.
Qed.

(** X3, when an interrupt arrives during the query. *)
Lemma endpoint_is_queried_once_witness :
  run_outcome (send_to_databricks_endpoint interrupted_query_world demo_cfg "hello") init
  = Raises (mkExn KeyboardInterrupt "") /\
  query_answer interrupted_query_world demo_cfg init "hello"
  = Raises (mkExn KeyboardInterrupt "").
Proof.
  split; [ reflexivity | ].
  exact (proj2 (proj2 (proj2 (endpoint_is_queried_once interrupted_query_world demo_cfg
                                "hello" init))
                  (mkExn KeyboardInterrupt "") eq_refl)).
Defined.

(** ** Handling one event *)

Lemma outbound_calls_call ev t :
  is_log ev = false -> outbound_calls (ev :: t) = ev :: outbound_calls t.
Proof. intros H. unfold outbound_calls. simpl. rewrite H. reflexivity. Qed.

Ltac calls_of_trace' :=
  repeat (rewrite outbound_calls_log
          || rewrite outbound_calls_app
          || (rewrite outbound_calls_call by reflexivity)
          || (rewrite outbound_calls_logs by (assumption || constructor)));
  cbn [app]; rewrite ?app_nil_r.

(** X4. An update that carries no message is dropped without a trace, and a
    message that carries no text is skipped with one log record: in both
    cases nothing is sent, the endpoint is not asked, and the state is
    untouched. *)
Theorem event_without_text_is_skipped W cfg u s :
  (message u = None -> process_update W cfg u s = (Returns tt, s, [])) /\
  (forall m,
     message u = Some m -> text m = None ->
     process_update W cfg u s
     = (Returns tt, s, [Log INFO "Message doesn't contain text, skipping"])).
Proof.
  split.
  - intros Hm. apply process_update_returns. unfold handle_update. rewrite Hm. reflexivity.
  - intros m Hm Ht. apply process_update_returns. unfold handle_update.
    rewrite Hm, Ht. reflexivity.
Qed.

(** X4, for a photo message and for an update of another kind. *)
Lemma event_without_text_is_skipped_witness :
  outbound_calls (run_trace (process_update hostile_world demo_cfg
                               (mkUpdate 3 (Some (mkMessage 7 None None)))) init) = [] /\
  run_trace (process_update hostile_world demo_cfg (mkUpdate 4 None)) init = [].
Proof.
  split.
  - unfold run_trace.
    rewrite (proj2 (event_without_text_is_skipped hostile_world demo_cfg
                      (mkUpdate 3 (Some (mkMessage 7 None None))) init)
               (mkMessage 7 None None) eq_refl eq_refl).
    reflexivity.
  - unfold run_trace.
    rewrite (proj1 (event_without_text_is_skipped hostile_world demo_cfg
                      (mkUpdate 4 None) init) eq_refl).
    reflexivity.
Defined.

Lemma send_chat_action_cases W cfg chat action s :
  let request := ClientPost (action_url cfg) (ChatAction chat action) in
  (exists r, action_answer W cfg s chat action = Returns r /\
             send_chat_action W cfg chat action s = (Returns tt, bump s, [request])) \/
  (exists e, action_answer W cfg s chat action = Raises e /\ is_Exception e = true /\
             send_chat_action W cfg chat action s
             = (Returns tt, bump s,
                [request; Log WARNING ("Failed to send chat action: " ++ exn_str e)])) \/
  (exists e, action_answer W cfg s chat action = Raises e /\ is_Exception e = false /\
             send_chat_action W cfg chat action s = (Raises e, bump s, [request])).
Proof.
  intros request. subst request. unfold action_answer, action_url.
  unfold send_chat_action. cbv zeta.
  unfold try_except, bind, outbound, except_Exception, except_when, logger, ret, bump.
  destruct (client_post W (calls s) _ _) as [r|e].
  - left. exists r. split; reflexivity.
  - destruct (is_Exception e) eqn:He.
    + right; left. exists e. repeat split; auto.
    + right; right. exists e. repeat split; auto.
Qed.

Section FreeText.

Variable W : World.
Variable cfg : Config.
Hypothesis Herr : raises_only_errors W.

Lemma send_chat_action_run_safe chat action s :
  exists logs,
    send_chat_action W cfg chat action s
    = (Returns tt, bump s, ClientPost (action_url cfg) (ChatAction chat action) :: logs) /\
    Forall (fun ev => is_log ev = true) logs.
Proof.
  destruct (send_chat_action_cases W cfg chat action s) as [H | [H | H]].
  - destruct H as (r & _ & ->). exists []. split; [ reflexivity | constructor ].
  - destruct H as (e & _ & _ & ->). eexists. split; [ reflexivity | repeat constructor ].
  - destruct H as (e & Ha & He & _). unfold action_answer in Ha.
    destruct Herr as (_ & H2 & _). rewrite (H2 _ _ _ _ Ha) in He. discriminate.
Qed.

Lemma send_to_databricks_endpoint_run_safe msg s :
  exists reply logs,
    send_to_databricks_endpoint W cfg msg s
    = (Returns reply, bump s,
       Log INFO ("Sending to Databricks endpoint: " ++ py_slice_to 100 msg)
       :: ServingQuery (DATABRICKS_SERVING_ENDPOINT cfg) msg :: logs) /\
    Forall (fun ev => is_log ev = true) logs /\
    (forall e, query_answer W cfg s msg = Raises e -> reply = endpoint_error_reply e).
Proof.
  destruct (send_to_databricks_endpoint_run W cfg msg s)
    as (r & logs & Hrun & Hlogs & Hr & Hq).
  destruct r as [reply|e].
  - exists reply, logs. split; [ exact Hrun | ]. split; [ exact Hlogs | ].
    intros e He.
    assert (Hc : is_Exception e = true).
    { destruct Herr as (_ & _ & _ & _ & H5). unfold query_answer in He.
      eapply H5; eassumption. }
    specialize (Hq e He Hc). inversion Hq. reflexivity.
  - destruct (Hr e eq_refl) as [He Hq']. unfold query_answer in Hq'.
    destruct Herr as (_ & _ & _ & _ & H5). rewrite (H5 _ _ _ _ Hq') in He. discriminate.
Qed.

End FreeText.

Lemma is_command_false txt :
  is_command txt = false ->
  startswith txt "/start" = false /\ startswith txt "/help" = false /\
  startswith txt "/status" = false.
Proof.
  unfold is_command. intros H.
  apply orb_false_elim in H. destruct H as [H H3].
  apply orb_false_elim in H. destruct H as [H1 H2]. auto.
Qed.

(** The [try] block on a text that is no command, when network calls raise
    errors only: typing indicator, query, delivery of what the query gave,
    each once and in this order. *)
Lemma handle_update_free_text W cfg u m txt s :
  raises_only_errors W ->
  message u = Some m -> text m = Some txt -> is_command txt = false ->
  exists r s3 t reply,
    handle_update W cfg u s = (r, s3, t) /\
    run_outcome (send_to_databricks_endpoint W cfg txt) (bump s) = Returns reply /\
    (forall e, query_answer W cfg (bump s) txt = Raises e ->
               reply = endpoint_error_reply e) /\
    outbound_calls t
    = [typing_to cfg (chat_id m);
       ServingQuery (DATABRICKS_SERVING_ENDPOINT cfg) txt;
       reply_to cfg (chat_id m) reply] /\
    (r = Returns tt \/ exists e, r = Raises e /\ is_Exception e = true).
Proof.
  intros Herr Hm Ht Hc.
  destruct (is_command_false txt Hc) as (H1 & H2 & H3).
  destruct (send_chat_action_run_safe W cfg Herr (chat_id m) "typing" s)
    as (logs1 & Hact & Hlogs1).
  destruct (send_to_databricks_endpoint_run_safe W cfg Herr txt (bump s))
    as (reply & logs2 & Hq & Hlogs2 & Hreply).
  destruct (send_telegram_message_run W cfg (chat_id m) reply (bump (bump s)))
    as (r3 & logs3 & Hsend & Hlogs3 & Hr3).
  unfold handle_update. rewrite Hm, Ht. cbv zeta. rewrite H1, H2, H3.
  unfold bind at 1, logger at 1.
  unfold bind at 1. rewrite Hact.
  unfold bind at 1. rewrite Hq.
  unfold bind at 1. rewrite Hsend.
  destruct r3 as [a|e].
  - unfold logger. eexists _, _, _, reply. split; [ reflexivity | ].
    split; [ unfold run_outcome; rewrite Hq; reflexivity | ].
    split; [ exact Hreply | ]. split; [ | left; reflexivity ].
    unfold typing_to, reply_to. calls_of_trace'. reflexivity.
  - eexists _, _, _, reply. split; [ reflexivity | ].
    split; [ unfold run_outcome; rewrite Hq; reflexivity | ].
    split; [ exact Hreply | ]. split.
    + unfold typing_to, reply_to. calls_of_trace'. reflexivity.
    + right. exists e. split; [ reflexivity | ].
      apply (send_telegram_message_errors W cfg Herr (chat_id m) reply (bump (bump s))).
      unfold run_outcome. rewrite Hsend. reflexivity.
Qed.

(** X5. When network calls raise errors only, an event whose text is no
    command is handled to the end: the typing indicator is sent (its
    failure does not matter), the endpoint is asked once with the text, and
    what [send_to_databricks_endpoint] returned is delivered once to the
    conversation of the event.  When the query raised an error, what is
    delivered is the apology carrying the text of that error.  The only
    further call there can be is the generic notice, when the delivery
    itself raised. *)
Theorem free_text_gets_model_reply W cfg u m txt s :
  raises_only_errors W ->
  message u = Some m -> text m = Some txt -> is_command txt = false ->
  exists reply,
    run_outcome (send_to_databricks_endpoint W cfg txt) (bump s) = Returns reply /\
    (forall e, query_answer W cfg (bump s) txt = Raises e ->
               reply = ("Sorry, I encountered an error: " ++ exn_str e)%string) /\
    run_outcome (process_update W cfg u) s = Returns tt /\
    let sent := outbound_calls (run_trace (process_update W cfg u) s) in
    let expected :=
      [ClientPost (action_url cfg) (ChatAction (chat_id m) "typing");
       ServingQuery (DATABRICKS_SERVING_ENDPOINT cfg) txt;
       ClientPost (send_url cfg) (SendMessage (chat_id m) reply "Markdown")] in
    sent = expected \/
    sent = expected ++ [ClientPost (send_url cfg)
                          (SendMessage (chat_id m) processing_error_reply "Markdown")].
Proof.
  intros Herr Hm Ht Hc.
  destruct (handle_update_free_text W cfg u m txt s Herr Hm Ht Hc)
    as (r & s3 & t & reply & Hrun & Hq & Hreply & Hcalls & Hr).
  exists reply. split; [ exact Hq | ]. split; [ exact Hreply | ].
  destruct Hr as [-> | (e & -> & He)].
  - pose proof (process_update_returns W cfg u s tt s3 t Hrun) as Hp.
    unfold run_outcome, run_trace. rewrite Hp. cbn [fst snd].
    split; [ reflexivity | ]. left. exact Hcalls.
  - destruct (process_update_caught W cfg u s e s3 t Hrun He) as (s4 & logs & Hp & Hlogs).
    unfold run_outcome, run_trace. rewrite Hp. cbn [fst snd].
    split; [ reflexivity | ]. right.
    unfold error_notice. rewrite Hm.
    rewrite outbound_calls_app, Hcalls. f_equal.
    unfold reply_to. calls_of_trace'. reflexivity.
Qed.

(** X5, with the serving endpoint and the typing indicator both failing:
    the apology is delivered. *)
Lemma free_text_gets_model_reply_witness :
  raises_only_errors hostile_world /\
  exists reply,
    reply = "Sorry, I encountered an error: endpoint not found"%string /\
    run_outcome (send_to_databricks_endpoint hostile_world demo_cfg "hello") (bump init)
    = Returns reply /\
    run_outcome (process_update hostile_world demo_cfg (text_update 6 7 "hello")) init
    = Returns tt.
Proof.
  assert (Herr : raises_only_errors hostile_world).
  { unfold raises_only_errors, hostile_world; simpl.
    split; [ | split; [ | split; [ | split ] ] ].
    - intros n url p e H. inversion H. reflexivity.
    - intros n url [c b pm | c a] e H; inversion H. reflexivity.
    - intros n url [c b pm | c a] r e H Hj; inversion H; subst r. discriminate.
    - intros n url p r e H; discriminate.
    - intros n name msg e H. inversion H. reflexivity. }
  split; [ exact Herr | ].
  destruct (free_text_gets_model_reply hostile_world demo_cfg (text_update 6 7 "hello")
              (mkMessage 7 (Some "hello") None) "hello" init Herr eq_refl eq_refl eq_refl)
    as (reply & Hq & Hreply & Hret & _).
  exists reply. split; [ | split; [ exact Hq | exact Hret ] ].
  exact (Hreply (mkExn OtherException "endpoint not found") eq_refl).
Defined.

(** ** Handling a batch *)

(** X6. Handling a batch is handling its front part and then its back
    part from the state the front part left: when the front part runs to its
    end, outcome, state and trace of the whole are those of the two parts
    in sequence; when the front part raises, the back part is not started. *)
Theorem batch_handling_splits W cfg B1 B2 s :
  (run_outcome (process_updates W cfg B1) s = Returns tt ->
   let mid := run_state (process_updates W cfg B1) s in
   process_updates W cfg (B1 ++ B2) s
   = (run_outcome (process_updates W cfg B2) mid,
      run_state (process_updates W cfg B2) mid,
      run_trace (process_updates W cfg B1) s ++ run_trace (process_updates W cfg B2) mid)) /\
  (forall e,
     run_outcome (process_updates W cfg B1) s = Raises e ->
     process_updates W cfg (B1 ++ B2) s = process_updates W cfg B1 s).
Proof.
  rewrite process_updates_app. split.
  - intros H mid. subst mid. revert H.
    unfold run_outcome, run_state, run_trace, bind.
    destruct (process_updates W cfg B1 s) as [[r s1] t1]. cbn [fst snd]. intros ->.
    destruct (process_updates W cfg B2 s1) as [[r2 s2] t2]. reflexivity.
  - intros e. unfold run_outcome, bind.
    destruct (process_updates W cfg B1 s) as [[r s1] t1]. cbn [fst snd]. intros ->.
    reflexivity.
Qed.

(** X6, on a batch of two events cut in the middle. *)
Lemma batch_handling_splits_witness :
  let W := stub_world [] "hi there" in
  run_trace (process_updates W demo_cfg
               ([text_update 1 7 "/start"] ++ [text_update 2 8 "/help"])) init
  = run_trace (process_updates W demo_cfg [text_update 1 7 "/start"]) init
    ++ run_trace (process_updates W demo_cfg [text_update 2 8 "/help"])
         (run_state (process_updates W demo_cfg [text_update 1 7 "/start"]) init).
Proof.
  intros W. unfold run_trace at 1.
  rewrite (proj1 (batch_handling_splits W demo_cfg [text_update 1 7 "/start"]
                    [text_update 2 8 "/help"] init) eq_refl).
  reflexivity.
Defined.

(** X7. An exception that is not an [Exception] (an interrupt, a
    cancellation) raised while an event is handled is not caught by
    [process_update]: no notice is sent for that event, the events that
    follow it in the batch are not handled, and the exception leaves the
    batch loop as it is. *)
Theorem interrupt_skips_rest_of_batch W cfg B1 u B2 s e s1 t1 :
  run_outcome (process_updates W cfg B1) s = Returns tt ->
  handle_update W cfg u (run_state (process_updates W cfg B1) s) = (Raises e, s1, t1) ->
  is_Exception e = false ->
  process_updates W cfg (B1 ++ u :: B2) s
  = (Raises e, s1, run_trace (process_updates W cfg B1) s ++ t1).
Proof.
  intros H1 Hu He.
  pose proof (process_update_uncaught W cfg u _ e s1 t1 Hu He) as Hp.
  rewrite process_updates_app. revert H1 Hp.
  unfold run_outcome, run_state, run_trace, bind.
  destruct (process_updates W cfg B1 s) as [[r sm] tm]. cbn [fst snd]. intros -> Hp.
  simpl. unfold bind. rewrite Hp. reflexivity.
Qed.

(** X7, with an interrupt during the first delivery of a batch of two. *)
Lemma interrupt_skips_rest_of_batch_witness :
  process_updates interrupted_delivery_world demo_cfg
    ([] ++ text_update 1 7 "/start" :: [text_update 2 8 "/help"]) init
  = (Raises (mkExn KeyboardInterrupt ""), bump init,
     [Log INFO "Processing message from User (chat 7): /start";
      ClientPost (send_url demo_cfg) (SendMessage 7 start_reply "Markdown")]).
Proof.
  exact (interrupt_skips_rest_of_batch interrupted_delivery_world demo_cfg
           [] (text_update 1 7 "/start") [text_update 2 8 "/help"] init
           (mkExn KeyboardInterrupt "") (bump init)
           [Log INFO "Processing message from User (chat 7): /start";
            ClientPost (send_url demo_cfg) (SendMessage 7 start_reply "Markdown")]
           eq_refl eq_refl eq_refl).
Defined.



(** ** The fetch step, further *)

(** X9. A fetch that the Bot API answers with a success status but
    ["ok"] false yields the empty batch and an error log record carrying
    the body; updates listed in such a body are dropped and the cursor does
    not move.  A body with ["ok"] true and no ["result"] key yields the
    empty batch silently. *)
Theorem fetch_refused_by_api W cfg s r d :
  get_answer W cfg s = Returns r -> status_error r = None -> json r = Returns d ->
  (ok d = false ->
   get_updates W cfg s
   = (Returns [], bump s,
      [ClientGet (updates_url cfg) (Some (mkGetParams (cursor s + 1) 30 ["message"]));
       Log ERROR ("Error getting updates: " ++ data_repr d)])) /\
  (ok d = true -> result d = None ->
   get_updates W cfg s
   = (Returns [], bump s,
      [ClientGet (updates_url cfg) (Some (mkGetParams (cursor s + 1) 30 ["message"]))])).
Proof.
  unfold get_answer, updates_url, cursor. intros Hg Hs Hj.
  unfold get_updates. cbv zeta.
  unfold try_except, bind, get_last_update_id, outbound, raise_for_status,
    except_Exception, except_when, logger, ret, raise, of_outcome, set_last_update_id, bump.
  rewrite Hg, Hs, Hj. simpl. split.
  - intros Hok. rewrite Hok. reflexivity.
  - intros Hok Hres. rewrite Hok, Hres. reflexivity.
Qed.

(** X9, on a body with ["ok"] false that lists event 9. *)
Lemma fetch_refused_by_api_witness :
  run_outcome (get_updates refusing_world demo_cfg) init = Returns [] /\
  cursor (run_state (get_updates refusing_world demo_cfg) init) = 0.
Proof.
  pose proof (proj1 (fetch_refused_by_api refusing_world demo_cfg init _ _
                       eq_refl eq_refl eq_refl) eq_refl) as H.
  unfold run_outcome, run_state. rewrite H. split; reflexivity.
Defined.

(** X10. [get_updates] never raises an error: an exception comes out of it
    only when it is not an [Exception] and was raised by the request or by
    decoding the body, and then the cursor is untouched.  In every case it
    makes exactly one outbound call. *)
Theorem fetch_lets_only_interrupts_through W cfg s :
  calls (run_state (get_updates W cfg) s) = S (calls s) /\
  (forall e,
     run_outcome (get_updates W cfg) s = Raises e ->
     is_Exception e = false /\ fetch_error W cfg s e /\
     cursor (run_state (get_updates W cfg) s) = cursor s).
Proof.
  destruct (get_updates_run W cfg s) as (r & s1 & logs & Hrun & _ & Hcalls & Hr).
  unfold run_state, run_outcome. rewrite Hrun. cbn [fst snd].
  split; [ exact Hcalls | ].
  intros e ->. destruct Hr as (Hc & He & Hf). auto.
Qed.

(** X10, when the task is cancelled during the long poll. *)
Lemma fetch_lets_only_interrupts_through_witness :
  run_outcome (get_updates cancelling_world demo_cfg) init
  = Raises (mkExn OtherBaseException "CancelledError") /\
  is_Exception (mkExn OtherBaseException "CancelledError") = false /\
  cursor (run_state (get_updates cancelling_world demo_cfg) init) = cursor init.
Proof.
  split; [ reflexivity | ].
  destruct (proj2 (fetch_lets_only_interrupts_through cancelling_world demo_cfg init)
              (mkExn OtherBaseException "CancelledError") eq_refl) as (He & _ & Hc).
  split; [ exact He | exact Hc ].
Defined.

(** ** The main loop, further *)

(** X11. A turn of the loop whose [try] block runs to its end always ends
    with the [POLL_INTERVAL] pause, after an empty batch and after a handled
    batch alike, and the loop goes on. *)
Theorem turn_ends_with_poll_pause W cfg s c s' t :
  poll_once W cfg s = (Returns c, s', t) ->
  c = Continue /\
  (exists t', t = t' ++ [AsyncSleep (POLL_INTERVAL cfg)]) /\
  run_iteration W cfg s = (Returns Continue, s', t).
Proof.
  intros H.
  assert (Hc : c = Continue /\ exists t', t = t' ++ [AsyncSleep (POLL_INTERVAL cfg)]).
  { revert H. unfold poll_once, bind.
    destruct (get_updates W cfg s) as [[[B|e] s1] t1]; [ | discriminate ].
    destruct (dispatch_batch W cfg B s1) as [[[[]|e] s2] t2]; [ | discriminate ].
    unfold outbound, ret.
    destruct (asyncio_sleep W (calls s2) (POLL_INTERVAL cfg)) as [[]|e]; [ | discriminate ].
    intros H. inversion H. split; [ reflexivity | ].
    exists (t1 ++ t2). cbn [app]. rewrite ?app_nil_r, app_assoc. reflexivity. }
  destruct Hc as [-> Ht]. split; [ reflexivity | ]. split; [ exact Ht | ].
  unfold run_iteration. apply try_returns. exact H.
Qed.

(** X11, after a batch of one handled event. *)
Lemma turn_ends_with_poll_pause_witness :
  let W := stub_world [text_update 1 7 "/start"] "hi there" in
  exists t', run_trace (poll_once W demo_cfg) init = t' ++ [AsyncSleep 2].
Proof.
  intros W.
  exact (proj1 (proj2 (turn_ends_with_poll_pause W demo_cfg init Continue
                         (run_state (poll_once W demo_cfg) init)
                         (run_trace (poll_once W demo_cfg) init) eq_refl))).
Defined.

(** X12. An exception that leaves the [try] block of the loop decides the
    fate of the loop by its class.  A [KeyboardInterrupt] is logged and
    ends the loop by [break], whatever the number of turns left.  An
    exception that is neither a [KeyboardInterrupt] nor an [Exception]
    leaves the loop as it is, with nothing logged. *)
Theorem loop_exit_by_exception_class W cfg s e s1 t1 fuel :
  poll_once W cfg s = (Raises e, s1, t1) ->
  (is_KeyboardInterrupt e = true ->
   run_iteration W cfg s = (Returns Break, s1, t1 ++ [Log INFO "Stopping poller..."]) /\
   run_loop W cfg (S fuel) s
   = (Returns (Some tt), s1, t1 ++ [Log INFO "Stopping poller..."])) /\
  (is_KeyboardInterrupt e = false -> is_Exception e = false ->
   run_iteration W cfg s = (Raises e, s1, t1) /\
   run_loop W cfg (S fuel) s = (Raises e, s1, t1)).
Proof.
  intros Hp. split.
  - intros Hk.
    assert (Hi : run_iteration W cfg s
                 = (Returns Break, s1, t1 ++ [Log INFO "Stopping poller..."])).
    { unfold run_iteration, try_except, on_loop_error. rewrite Hp, Hk. reflexivity. }
    split; [ exact Hi | ].
    simpl. unfold bind. rewrite Hi. unfold ret. rewrite app_nil_r. reflexivity.
  - intros Hk He.
    assert (Hi : run_iteration W cfg s = (Raises e, s1, t1)).
    { unfold run_iteration, try_except, on_loop_error. rewrite Hp, Hk, He. reflexivity. }
    split; [ exact Hi | ].
    simpl. unfold bind. rewrite Hi. reflexivity.
Qed.

(** X12, with an interrupt during the pause and with a cancellation during
    the long poll. *)
Lemma loop_exit_by_exception_class_witness :
  run_outcome (run_loop interrupted_pause_world demo_cfg 4) init = Returns (Some tt) /\
  run_outcome (run_loop cancelling_world demo_cfg 4) init
  = Raises (mkExn OtherBaseException "CancelledError").
Proof.
  split.
  - unfold run_outcome.
    rewrite (proj2 (proj1 (loop_exit_by_exception_class interrupted_pause_world demo_cfg
                             init (mkExn KeyboardInterrupt "") _ _ 3 eq_refl) eq_refl)).
    reflexivity.
  - unfold run_outcome.
    rewrite (proj2 (proj2 (loop_exit_by_exception_class cancelling_world demo_cfg
                             init (mkExn OtherBaseException "CancelledError") _ _ 3
                             eq_refl) eq_refl eq_refl)).
    reflexivity.
Defined.

(** ** Start and end of [run] *)

Lemma trace_ends_bind_with {A B} (P : event -> Prop) (m : M A) (k : A -> M B) s b z :
  run_outcome (bind m k) s = Returns b ->
  emits P m ->
  (forall a s', run_outcome (k a) s' = Returns b ->
                exists t, run_trace (k a) s' = t ++ z /\ Forall P t) ->
  exists t, run_trace (bind m k) s = t ++ z /\ Forall P t.
Proof.
  intros H Hm Hk. specialize (Hm s). revert H Hm.
  unfold run_outcome, run_trace, bind.
  destruct (m s) as [[[a|e] s1] t1]; [ | discriminate ].
  specialize (Hk a s1). unfold run_outcome, run_trace in Hk.
  destruct (k a s1) as [[r s2] t2]; simpl in *. intros H Hm.
  destruct (Hk H) as (t & -> & Ht). exists (t1 ++ t). split; [ apply app_assoc | ].
  apply Forall_app; auto.
Qed.

Section NoRelease.

Variable W : World.
Variable cfg : Config.

Ltac open_step :=
  match goal with
  | |- not_close _ => exact I
  | |- forall _, _ => intros
  | |- emits _ (send_telegram_message _ _ _ _) => apply emits_send_telegram_message
  | |- emits _ (send_chat_action _ _ _ _) => apply emits_send_chat_action
  | |- emits _ (send_to_databricks_endpoint _ _ _) => apply emits_send_to_databricks_endpoint
  | |- emits _ (raise_for_status _) => apply emits_raise_for_status
  | |- emits _ (set_last_update_id _) => intros ?; constructor
  | |- _ => emits_step
  end.

Lemma get_updates_open : emits not_close (get_updates W cfg).
Proof. unfold get_updates. cbv zeta. repeat open_step. Qed.

Lemma process_update_open u : emits not_close (process_update W cfg u).
Proof.
  unfold process_update, handle_update, on_update_error. cbv zeta. repeat open_step.
Qed.

Lemma process_updates_open B : emits not_close (process_updates W cfg B).
Proof.
  induction B as [| u rest IH]; simpl.
  - apply emits_ret.
  - apply emits_bind; [ apply process_update_open | intros _; exact IH ].
Qed.

Lemma run_iteration_open : emits not_close (run_iteration W cfg).
Proof.
  unfold run_iteration. apply emits_try.
  - unfold poll_once. apply emits_bind; [ apply get_updates_open | intros B ].
    apply emits_bind.
    + unfold dispatch_batch. destruct B; [ apply emits_ret | ].
      apply emits_bind; [ apply emits_logger; exact I | intros _ ].
      apply process_updates_open.
    + intros _. repeat open_step.
  - intros e k. unfold on_loop_error.
    destruct (is_KeyboardInterrupt e); [ | destruct (is_Exception e) ];
      intros H; inversion H; subst k; repeat open_step.
Qed.

Lemma run_loop_open fuel : emits not_close (run_loop W cfg fuel).
Proof.
  induction fuel as [| n IH]; simpl.
  - apply emits_ret.
  - apply emits_bind; [ apply run_iteration_open | ].
    intros [|]; [ exact IH | apply emits_ret ].
Qed.

End NoRelease.

Ltac run_prefix_open :=
  match goal with
  | |- emits _ (logger _ _) => apply emits_logger; exact I
  | |- emits _ (run_loop _ _ _) => apply run_loop_open
  | |- emits _ (match ?x with _ => _ end) => destruct x; auto with emits
  | |- emits _ (try_except _ _) =>
      apply emits_try_when;
      [ apply emits_bind;
        [ apply emits_outbound; exact I | intros; apply emits_logger; exact I ]
      | intros; apply emits_ret ]
  end.

(** X13. [run] closes the client exactly once when it returns after the
    loop was left by [break]: the release is its last outbound call,
    followed only by the closing log record, and nothing before it in the
    trace is a release.  While the loop is still running the client has not
    been closed. *)
Theorem client_closed_once_when_run_returns W cfg fuel s :
  (run_outcome (run W cfg fuel) s = Returns (Some tt) ->
   exists t,
     run_trace (run W cfg fuel) s = t ++ [ClientClose; Log INFO "Poller stopped"] /\
     Forall not_close t) /\
  (run_outcome (run W cfg fuel) s = Returns None ->
   Forall not_close (run_trace (run W cfg fuel) s)).
Proof.
  split.
  - unfold run. intros H.
    repeat (eapply trace_ends_bind_with;
            [ exact H
            | run_prefix_open
            | clear s H; intros ? s H ]).
    match goal with
    | H : run_outcome (match ?x with _ => _ end) _ = _ |- _ => destruct x as [[]|]
    end; [ | discriminate ].
    revert H. unfold run_outcome, run_trace, bind, outbound, logger, ret.
    destruct (client_aclose W (calls s)) as [[]|e]; [ | discriminate ].
    intros _. exists []. split; [ reflexivity | constructor ].
  - unfold run. intros H.
    assert (Hex : exists t, run_trace (run W cfg fuel) s = t ++ [] /\ Forall not_close t).
    { unfold run.
      repeat (eapply trace_ends_bind_with;
              [ exact H
              | run_prefix_open
              | clear s H; intros ? s H ]).
      match goal with
      | H : run_outcome (match ?x with _ => _ end) _ = _ |- _ => destruct x as [[]|]
      end.
      - revert H. unfold run_outcome, bind, outbound, logger, ret.
        destruct (client_aclose W (calls s)) as [[]|e]; discriminate.
      - exists []. split; [ reflexivity | constructor ]. }
    destruct Hex as (t & Ht & HP). unfold run in Ht. rewrite Ht, app_nil_r. exact HP.
Qed.

(** X13, with an interrupt during the first pause. *)
Lemma client_closed_once_when_run_returns_witness :
  exists t,
    run_trace (run interrupted_pause_world demo_cfg 3) init
    = t ++ [ClientClose; Log INFO "Poller stopped"] /\
    Forall not_close t.
Proof.
  exact (proj1 (client_closed_once_when_run_returns interrupted_pause_world demo_cfg 3 init)
           eq_refl).
Defined.

(** X14. Started without [TELEGRAM_BOT_TOKEN], [run] fails while it logs
    its banner: it raises the [TypeError] of slicing [None] before any
    outbound call, so neither the webhook request, nor a fetch, nor the
    release of the client takes place. *)
Theorem run_without_token_fails_at_startup W cfg fuel s :
  TELEGRAM_BOT_TOKEN cfg = None ->
  run W cfg fuel s
  = (Raises (mkExn OtherException "'NoneType' object is not subscriptable"), s,
     [Log INFO banner; Log INFO "Telegram Bot Poller Started"; Log INFO banner]).
Proof.
  intros H. unfold run. rewrite H. reflexivity.
Qed.

(** X14, with the settings of a process started without the token. *)
Lemma run_without_token_fails_at_startup_witness :
  outbound_calls (run_trace (run hostile_world tokenless_cfg 5) init) = [] /\
  run_outcome (run hostile_world tokenless_cfg 5) init
  = Raises (mkExn OtherException "'NoneType' object is not subscriptable").
Proof.
  unfold run_trace, run_outcome.
  rewrite (run_without_token_fails_at_startup hostile_world tokenless_cfg 5 init eq_refl).
  split; reflexivity.
Defined.

Lemma run_loop_starts_with_fetch W cfg fuel s :
  exists tail,
    run_trace (run_loop W cfg (S fuel)) s = run_trace (get_updates W cfg) s ++ tail.
Proof.
  rewrite run_loop_S.
  destruct (trace_bind_prefix (run_iteration W cfg)
              (fun c => match c with
                        | Break => ret (Some tt)
                        | Continue => run_loop W cfg fuel
                        end) s) as (tail1 & ->).
  unfold run_iteration.
  destruct (trace_try_prefix (poll_once W cfg) (on_loop_error W) s) as (tail2 & ->).
  unfold poll_once.
  match goal with
  | |- context [ run_trace (bind ?m ?k) s ] =>
      destruct (trace_bind_prefix m k s) as (tail3 & ->)
  end.
  exists (tail3 ++ tail2 ++ tail1). rewrite <- !app_assoc. reflexivity.
Qed.

(** The webhook request at the start of [run]: whatever it returns or
    raises, the block completes. *)
Lemma drop_webhook_run W cfg s :
  exists logs,
    try_except
      (bind (outbound (ClientGet (TELEGRAM_API_URL cfg ++ "/deleteWebhook") None)
               (fun n => client_get W n (TELEGRAM_API_URL cfg ++ "/deleteWebhook") None))
         (fun _ => logger INFO "Webhook deleted (if any)"))
      (except_any (fun _ => ret tt)) s
    = (Returns tt, bump s, ClientGet (webhook_url cfg) None :: logs) /\
    Forall (fun ev => is_log ev = true) logs.
Proof.
  unfold try_except, bind, outbound, logger, except_any, except_when, ret, bump, webhook_url.
  destruct (client_get W (calls s) _ None) as [r|e]; simpl.
  - eexists. split; [ reflexivity | repeat constructor ].
  - eexists. split; [ reflexivity | constructor ].
Qed.

(** X15. With a token, the first two outbound calls of [run] are the
    [deleteWebhook] request and then a [getUpdates] request with
    [offset = cursor + 1], whatever the webhook request returns or raises
    (an interrupt included): its failure is swallowed and polling starts. *)
Theorem run_drops_webhook_then_polls W cfg fuel tok s :
  TELEGRAM_BOT_TOKEN cfg = Some tok ->
  exists rest,
    outbound_calls (run_trace (run W cfg (S fuel)) s)
    = ClientGet (webhook_url cfg) None
      :: ClientGet (updates_url cfg) (Some (mkGetParams (cursor s + 1) 30 ["message"]))
      :: rest.
Proof.
  intros Htok. unfold run. rewrite Htok.
  destruct (drop_webhook_run W cfg s) as (logsW & Hweb & HlogsW).
  destruct (run_loop_starts_with_fetch W cfg fuel (bump s)) as (tail & Hloop).
  destruct (get_updates_run W cfg (bump s)) as (r & s1 & logsF & Hfetch & HlogsF & _).
  unfold run_trace in Hloop at 2. rewrite Hfetch in Hloop. cbn [snd] in Hloop.
  repeat (rewrite (trace_bind_returns (logger _ _) _ s tt eq_refl);
          change (run_state (logger _ _) s) with s;
          change (run_trace (logger _ _) s) with [Log _ _] || idtac).
  rewrite (trace_bind_returns (ret tok) _ s tok eq_refl).
  change (run_state (ret tok) s) with s.
  repeat (rewrite (trace_bind_returns (logger _ _) _ s tt eq_refl);
          change (run_state (logger _ _) s) with s).
  match goal with
  | |- context [ run_trace (bind (try_except ?m ?h) ?k) s ] =>
      assert (Ho : run_outcome (try_except m h) s = Returns tt)
        by (unfold run_outcome; rewrite Hweb; reflexivity);
      assert (Hs' : run_state (try_except m h) s = bump s)
        by (unfold run_state; rewrite Hweb; reflexivity);
      assert (Ht' : run_trace (try_except m h) s = ClientGet (webhook_url cfg) None :: logsW)
        by (unfold run_trace; rewrite Hweb; reflexivity);
      rewrite (trace_bind_returns (try_except m h) k s tt Ho), Hs', Ht'
  end.
  match goal with
  | |- context [ run_trace (bind (run_loop W cfg (S fuel)) ?k) (bump s) ] =>
      destruct (trace_bind_prefix (run_loop W cfg (S fuel)) k (bump s)) as (tail2 & ->)
  end.
  rewrite Hloop.
  exists (outbound_calls (tail ++ tail2)).
  unfold run_trace, logger. cbn [snd].
  change (cursor (bump s)) with (cursor s). unfold fetch_after.
  calls_of_trace'. reflexivity.
Qed.

(** X15, for [main] when Telegram cannot be reached: the webhook request
    fails, and the first fetch still follows, with offset 1. *)
Lemma run_drops_webhook_then_polls_witness :
  exists rest,
    outbound_calls (snd (main offline_world demo_cfg 2))
    = ClientGet (webhook_url demo_cfg) None
      :: ClientGet (updates_url demo_cfg) (Some (mkGetParams 1 30 ["message"]))
      :: rest.
Proof.
  exact (run_drops_webhook_then_polls offline_world demo_cfg 1 "123456:TEST-TOKEN" init
           eq_refl).
Defined.
